(** * Kanban board: the task store and the drag-and-drop reordering engine

    A shallow embedding of [modules/taskManager.js] (class [TaskManager]),
    [modules/dragDrop.js] (class [DragDrop]) and the form handler of
    [modules/eventHandlers.js], with the properties of the design document
    stated over it.

    Conventions of the embedding.
    - A JavaScript string is a [string]; a character stands for a code unit
      in the range U+0000..U+00FF.
    - A value that may be [undefined] (a [data-status] attribute that is
      absent, hence a task status copied from it) is an [option string],
      [None] standing for [undefined]; [===] on such values is equality of
      options.
    - [this.tasks] is a [list Task].  Every slot of the array holds an object
      of its own (the array comes from [JSON.parse] or from [push] of a fresh
      object literal, and is only ever rebuilt from its own elements), so the
      object that [find] returns sits at the index where [find] stopped, and
      an assignment to one of its fields is an update of that slot.
    - [saveTasks], [renderTask], [renderAllTasks], [updateTaskCounts] and
      [console.log] write to localStorage, the DOM and the console; they
      neither assign [this.tasks] nor a field of a task, and they catch what
      they raise, so they do not appear in the state transformers below.
    - [new Date().toISOString()] and [DOMUtils.generateUniqueId] read the
      clock and the random generator: their results are inputs. *)

From Stdlib Require Import ZArith QArith String Ascii Sorted.
From stdpp Require Import base option list strings gmap.

Local Open Scope string_scope.
Local Open Scope list_scope.
Local Open Scope Z_scope.

(** ** Strings: [String.prototype.trim] *)

(** White space and line terminators of ECMAScript among the code units
    below 256: TAB, LF, VT, FF, CR, SP and NBSP. *)
Definition isWhiteSpace (c : ascii) : bool :=
  let n := nat_of_ascii c in
  ((9 <=? n) && (n <=? 13) || (n =? 32) || (n =? 160))%nat.

Fixpoint trimStart (s : string) : string :=
  match s with
  | EmptyString => EmptyString
  | String c rest => if isWhiteSpace c then trimStart rest else s
  end.

Fixpoint trimEnd (s : string) : string :=
  match s with
  | EmptyString => EmptyString
  | String c rest =>
      match trimEnd rest with
      | EmptyString => if isWhiteSpace c then EmptyString else String c EmptyString
      | kept => String c kept
      end
  end.

Definition trim (s : string) : string := trimEnd (trimStart s).

(** A string made of white space only. *)
Fixpoint allWhiteSpace (s : string) : bool :=
  match s with
  | EmptyString => true
  | String c rest => isWhiteSpace c && allWhiteSpace rest
  end.

(** ** The task store ([TaskManager]) *)

Record Task := mkTask {
  id : string;
  title : string;
  description : string;
  status : option string;
  createdAt : string;
  updatedAt : string
}.

Global Instance Task_eq_dec : EqDecision Task.
Proof. solve_decision. Defined.

(** Outcome of a call: it returns a value or throws [new Error(message)]. *)
Inductive completion (A : Type) : Type :=
  | Normal (value : A)
  | Throw (message : string).
Arguments Normal {A} value.
Arguments Throw {A} message.

(** What [createTask] reads from its environment. *)
Record Env := mkEnv {
  uniqueId : string;     (* DOMUtils.generateUniqueId('task') *)
  createdNow : string;   (* first  new Date().toISOString() *)
  updatedNow : string    (* second new Date().toISOString() *)
}.

(** [this.tasks.find(t => t.id === taskId)], with the index of the hit. *)
Definition findTask (taskId : string) (tasks : list Task) : option (nat * Task) :=
  list_find (λ t, id t = taskId) tasks.

(** [createTask(title, description)]: the completion and the task list
    after the call. *)
Definition createTask (env : Env) (title description : string)
    (tasks : list Task) : completion Task * list Task :=
  if decide (trim title = "") then
    (Throw "Task title is required", tasks)
  else
    let task := {| id := uniqueId env;
                   title := trim title;
                   description := trim description;
                   status := Some "todo";
                   createdAt := createdNow env;
                   updatedAt := updatedNow env |} in
    (Normal task, tasks ++ [task]).

(** [updateTaskStatus(taskId, newStatus)]; [now] is the time stamp read. *)
Definition updateTaskStatus (now : string) (taskId : string)
    (newStatus : option string) (tasks : list Task) : list Task :=
  match findTask taskId tasks with
  | None => tasks
  | Some (i, task) =>
      <[i := {| id := id task;
                title := title task;
                description := description task;
                status := newStatus;
                createdAt := createdAt task;
                updatedAt := now |}]> tasks
  end.

(** [arr.splice(position, 0, task)] for [0 <= position <= arr.length]. *)
Definition spliceIn (position : nat) (task : Task) (arr : list Task) : list Task :=
  take position arr ++ task :: drop position arr.

(** [moveTaskToPosition(taskId, status, position)].  [position] is a
    JavaScript number holding an integer (the callers pass the result of
    [indexOf] or [-1]). *)
Definition moveTaskToPosition (taskId : string) (status0 : option string)
    (position : Z) (tasks : list Task) : list Task :=
  match findTask taskId tasks with
  | None => tasks
  | Some (taskIndex, task) =>
      let tasks1 := delete taskIndex tasks in
      let statusTasks := filter (λ t, status t = status0) tasks1 in
      let otherTasks := filter (λ t, status t ≠ status0) tasks1 in
      let statusTasks' :=
        if decide (0 <= position ∧ position <= Z.of_nat (length statusTasks))
        then spliceIn (Z.to_nat position) task statusTasks
        else statusTasks ++ [task] in
      otherTasks ++ statusTasks'
  end.

(** [deleteTask(taskId)]. *)
Definition deleteTask (taskId : string) (tasks : list Task) : list Task :=
  match findTask taskId tasks with
  | None => tasks
  | Some (taskIndex, _) => delete taskIndex tasks
  end.

(** [getTasksByStatus(status)]. *)
Definition getTasksByStatus (status0 : option string) (tasks : list Task) : list Task :=
  filter (λ task, status task = status0) tasks.

(** The operations as commands, to speak of sequences of calls.  Only
    [createTask] contains a [throw]; the three others return normally on
    every input. *)
Inductive Op :=
  | OpCreate (env : Env) (title description : string)
  | OpUpdateStatus (now taskId : string) (newStatus : option string)
  | OpMoveToPosition (taskId : string) (status0 : option string) (position : Z)
  | OpDelete (taskId : string).

Definition exec (op : Op) (tasks : list Task) : completion unit * list Task :=
  match op with
  | OpCreate env title0 description0 =>
      match createTask env title0 description0 tasks with
      | (Normal _, tasks') => (Normal tt, tasks')
      | (Throw message, tasks') => (Throw message, tasks')
      end
  | OpUpdateStatus now taskId newStatus =>
      (Normal tt, updateTaskStatus now taskId newStatus tasks)
  | OpMoveToPosition taskId status0 position =>
      (Normal tt, moveTaskToPosition taskId status0 position tasks)
  | OpDelete taskId => (Normal tt, deleteTask taskId tasks)
  end.

(** States reachable from [init] by calls taken from [allowed]. *)
Inductive reachable (allowed : Op → Prop) (init : list Task) : list Task → Prop :=
  | reachable_init : reachable allowed init init
  | reachable_step tasks op :
      reachable allowed init tasks → allowed op →
      reachable allowed init (exec op tasks).2.

(** The status values the code knows ([updateTaskCounts],
    [addEmptyStateMessages], the column ids of [renderAllTasks]). *)
Definition codeStatuses : list (option string) :=
  [Some "todo"; Some "inprogress"; Some "done"].

(** The status values as the design document spells them. *)
Definition specStatuses : list (option string) :=
  [Some "todo"; Some "in-progress"; Some "done"].

(** Calls whose status argument, if any, is one the code knows. *)
Definition knownStatusOp (op : Op) : Prop :=
  match op with
  | OpUpdateStatus _ _ newStatus => newStatus ∈ codeStatuses
  | _ => True
  end.

(** The index at which [moveTaskToPosition] puts the task in
    [statusTasks], whose length is [count]. *)
Definition clampIndex (position : Z) (count : nat) : nat :=
  if decide (0 <= position ∧ position <= Z.of_nat count)
  then Z.to_nat position else count.


(** ** The form handler ([EventHandlers.handleFormSubmission]) *)

Inductive FormFeedback :=
  | TitleError (message : string)        (* showFieldError(titleInput, ..) *)
  | DescriptionError (message : string)  (* showFieldError(descriptionInput, ..) *)
  | Created (task : Task).               (* showSuccessMessage(..) *)

Definition handleFormSubmission (env : Env) (titleValue descriptionValue : string)
    (tasks : list Task) : FormFeedback * list Task :=
  let title0 := trim titleValue in
  let description0 := trim descriptionValue in
  if decide (title0 = "") then
    (TitleError "Task title is required", tasks)
  else if decide (100 < String.length title0)%nat then
    (TitleError "Task title must be 100 characters or less", tasks)
  else if decide (500 < String.length description0)%nat then
    (DescriptionError "Description must be 500 characters or less", tasks)
  else
    match createTask env title0 description0 tasks with
    | (Normal task, tasks') => (Created task, tasks')
    | (Throw message, tasks') =>
        (TitleError (if decide (message = "") then "Failed to create task"
                     else message), tasks')
    end.

(** ** The drag-and-drop engine ([DragDrop]) *)

(** A [.task-card] element: its [data-task-id], whether it carries the
    class [dragging], and [cardMiddle], the number that
    [rect.top + rect.height / 2] evaluates to for the rectangle that
    [getBoundingClientRect()] returns when the loop of
    [handleInsertionPoint] reads it.  That number and [e.clientY] are
    finite floating-point numbers, hence rationals, and they are compared
    as such. *)
Record Card := mkCard {
  card_taskId : string;
  dragging : bool;
  cardMiddle : Q
}.

(** The children of a [.column-content] element: task cards, the
    placeholder of the running drag, and the empty-state message. *)
Inductive Node :=
  | CardNode (card : Card)
  | PlaceholderNode
  | EmptyStateNode.

Global Instance Q_eq_dec : EqDecision Q.
Proof. solve_decision. Defined.
Global Instance Card_eq_dec : EqDecision Card.
Proof. solve_decision. Defined.
Global Instance Node_eq_dec : EqDecision Node.
Proof. solve_decision. Defined.

(** A [.column] element: [dataset.status] and the children of its
    [.column-content], [None] when it has no such descendant. *)
Record Column := mkColumn {
  dataset_status : option string;
  columnContent : option (list Node)
}.

(** The fields of a [DragDrop] object.  [draggedElement] is [null] or the
    card being dragged (its task id); [placeholder] is [null] or the
    placeholder element, with whether its [parentNode] is non-null. *)
Record DragDrop := mkDragDrop {
  draggedElement : option string;
  placeholder : option bool
}.

Global Instance Qlt_decision : RelDecision Qlt :=
  λ x y, decide (Qnum x * QDen y < Qnum y * QDen x)%Z.

Global Instance Qle_decision : RelDecision Qle :=
  λ x y, decide (Qnum x * QDen y <= Qnum y * QDen x)%Z.

(** [columnContent.querySelectorAll('.task-card:not(.dragging)')]. *)
Definition isTaskCard (node : Node) : bool :=
  match node with
  | CardNode card => negb (dragging card)
  | _ => false
  end.

Definition taskCardsOf (children : list Node) : list Card :=
  omap (λ node, match node with
                | CardNode card => if dragging card then None else Some card
                | _ => None
                end) children.

(** The loop of [handleInsertionPoint], entered at index [i] with the cards
    from [taskCards[i]] on; [insertAfter] is [null] or the index in
    [taskCards] of the card it holds. *)
Fixpoint insertAfterLoop (mouseY : Q) (cards : list Card) (i : nat)
    (insertAfter : option nat) : option nat :=
  match cards with
  | [] => insertAfter
  | card :: rest =>
      if decide (cardMiddle card < mouseY)%Q
      then insertAfterLoop mouseY rest (S i) (Some i)
      else insertAfter
  end.

(** [insertAfter.insertAdjacentElement('afterend', placeholder)] where
    [insertAfter] is the [i]-th card of [taskCards]. *)
Fixpoint insertAfterCard (i : nat) (children : list Node) : list Node :=
  match children with
  | [] => []
  | node :: rest =>
      if isTaskCard node then
        match i with
        | O => node :: PlaceholderNode :: rest
        | S j => node :: insertAfterCard j rest
        end
      else node :: insertAfterCard i rest
  end.

(** [updatePlaceholderPosition(columnContent, insertAfter)]. *)
Definition updatePlaceholderPosition (dd : DragDrop) (children : list Node)
    (insertAfter : option nat) : DragDrop * list Node :=
  match placeholder dd with
  | None => (dd, children)
  | Some _ =>
      let children1 := filter (λ node, node ≠ PlaceholderNode) children in
      (mkDragDrop (draggedElement dd) (Some true),
       match insertAfter with
       | Some i => insertAfterCard i children1
       | None => PlaceholderNode :: children1
       end)
  end.

(** [handleInsertionPoint(e, column)] with [mouseY = e.clientY]. *)
Definition handleInsertionPoint (dd : DragDrop) (mouseY : Q) (column : Column)
    : DragDrop * Column :=
  match columnContent column with
  | None => (dd, column)
  | Some children =>
      let taskCards := taskCardsOf children in
      let insertAfter := insertAfterLoop mouseY taskCards 0 None in
      let '(dd', children') := updatePlaceholderPosition dd children insertAfter in
      (dd', mkColumn (dataset_status column) (Some children'))
  end.

(** The insertion index that a placeholder position stands for: the number
    of cards not being dragged that precede the placeholder. *)
Fixpoint cardsBeforePlaceholder (children : list Node) : option nat :=
  match children with
  | [] => None
  | PlaceholderNode :: _ => Some O
  | node :: rest =>
      (λ n, if isTaskCard node then S n else n) <$> cardsBeforePlaceholder rest
  end.

(** [children.indexOf(this.placeholder)]. *)
Fixpoint indexOfPlaceholder (children : list Node) : Z :=
  match children with
  | [] => -1
  | PlaceholderNode :: _ => 0
  | _ :: rest =>
      let r := indexOfPlaceholder rest in
      if decide (r = -1) then -1 else r + 1
  end.

(** [getInsertionIndex(column)]; reading [children] of a missing
    [.column-content] throws a [TypeError]. *)
Definition getInsertionIndex (dd : DragDrop) (column : Column) : completion Z :=
  match placeholder dd with
  | None | Some false => Normal (-1)
  | Some true =>
      match columnContent column with
      | None => Throw "TypeError"
      | Some children => Normal (indexOfPlaceholder children)
      end
  end.

(** [cleanupDragState()], as far as the fields go. *)
Definition cleanupDragState (dd : DragDrop) : DragDrop :=
  mkDragDrop None None.

(** [handleDragEnd(e)]. *)
Definition handleDragEnd (dd : DragDrop) : DragDrop := cleanupDragState dd.

(** A drop event: [e.target.closest('.column')] and
    [e.dataTransfer.getData('text/plain')]. *)
Record DropEvent := mkDropEvent {
  closestColumn : option Column;
  dataTransferText : string
}.

(** [handleDrop(e)]; [this.taskManager] is the store the constructor was
    given.  The result is the completion, the fields of the [DragDrop]
    object and the task list after the call. *)
Definition handleDrop (now : string) (e : DropEvent) (dd : DragDrop)
    (tasks : list Task) : completion unit * DragDrop * list Task :=
  match draggedElement dd with
  | None => (Normal tt, dd, tasks)
  | Some _ =>
      match closestColumn e with
      | None => (Normal tt, dd, tasks)
      | Some column =>
          let newStatus := dataset_status column in
          let taskId := dataTransferText e in
          let tasks1 := updateTaskStatus now taskId newStatus tasks in
          match getInsertionIndex dd column with
          | Throw message => (Throw message, dd, tasks1)
          | Normal insertionIndex =>
              (Normal tt, cleanupDragState dd,
               moveTaskToPosition taskId newStatus insertionIndex tasks1)
          end
      end
  end.

(** ** More of the task store ([TaskManager]) *)

(** [getTotalTaskCount()]. *)
Definition getTotalTaskCount (tasks : list Task) : nat := length tasks.

(** The object [counts] of [updateTaskCounts()], whose three fields are
    written to the column headers. *)
Record TaskCounts := mkTaskCounts {
  count_todo : nat;
  count_inprogress : nat;
  count_done : nat
}.

Definition updateTaskCounts (tasks : list Task) : TaskCounts :=
  {| count_todo := length (filter (λ t, status t = Some "todo") tasks);
     count_inprogress :=
       length (filter (λ t, status t = Some "inprogress") tasks);
     count_done := length (filter (λ t, status t = Some "done") tasks) |}.

(** [columnMappings] of [addEmptyStateMessages], in the order of
    [Object.entries]. *)
Definition columnMappings : list (string * string) :=
  [("todoColumn", "todo"); ("inprogressColumn", "inprogress");
   ("doneColumn", "done")].

(** [addEmptyStateMessages()]: the ids of the columns that get the
    empty-state message; [columnExists columnId] tells whether
    [querySelector('#' + columnId)] finds an element. *)
Definition addEmptyStateMessages (columnExists : string → bool)
    (tasks : list Task) : list string :=
  omap (λ '(columnId, status0),
          if columnExists columnId then
            if decide (Exists (λ task, status task = Some status0) tasks)
            then None else Some columnId
          else None)
       columnMappings.

(** [String.prototype.toLowerCase] on the code units below 256: the
    letters A-Z and the letters U+00C0-U+00DE other than U+00D7. *)
Definition lowerChar (c : ascii) : ascii :=
  let n := nat_of_ascii c in
  if ((65 <=? n) && (n <=? 90)
      || (192 <=? n) && (n <=? 222) && negb (n =? 215))%nat
  then ascii_of_nat (n + 32) else c.

Fixpoint toLowerCase (s : string) : string :=
  match s with
  | EmptyString => EmptyString
  | String c rest => String (lowerChar c) (toLowerCase rest)
  end.

(** [s.startsWith(p)]. *)
Fixpoint startsWith (s p : string) : bool :=
  match p, s with
  | EmptyString, _ => true
  | String _ _, EmptyString => false
  | String a p', String b s' => if Ascii.eqb a b then startsWith s' p' else false
  end.

(** [s.includes(sub)]. *)
Fixpoint includes (s sub : string) : bool :=
  startsWith s sub
  || match s with
     | EmptyString => false
     | String _ rest => includes rest sub
     end.

(** [searchTasks(query)]. *)
Definition searchTasks (query : string) (tasks : list Task) : list Task :=
  if decide (trim query = "") then tasks
  else
    let lowercaseQuery := toLowerCase query in
    filter (λ task,
              includes (toLowerCase (title task)) lowercaseQuery
              || includes (toLowerCase (description task)) lowercaseQuery)
           tasks.

(** ** DOM utilities ([DOMUtils]) and the texts of a task card *)

(** [DOMUtils.truncateText(text, maxLength, suffix)] for a string [text];
    [substring] takes a negative end for 0. *)
Definition truncateText (text : string) (maxLength : Z) (suffix : string) : string :=
  if decide (Z.of_nat (String.length text) <= maxLength) then text
  else
    String.append
      (substring 0 (Z.to_nat (maxLength - Z.of_nat (String.length suffix))) text)
      suffix.

(** [DOMUtils.generateUniqueId(prefix)]: [dateNow] is the decimal text of
    [Date.now()] and [random] is
    [Math.random().toString(36).substring(2, 9)]. *)
Definition generateUniqueId (prefix dateNow random : string) : string :=
  String.append prefix
    (String "_" (String.append dateNow (String "_" random))).

(** [s.split(sep)] for a separator of one character. *)
Fixpoint splitOn (sep : ascii) (s : string) : list string :=
  match s with
  | EmptyString => [EmptyString]
  | String c rest =>
      if Ascii.eqb c sep then EmptyString :: splitOn sep rest
      else match splitOn sep rest with
           | piece :: pieces => String c piece :: pieces
           | [] => [String c EmptyString]
           end
  end.

(** The texts that [createTaskElement(task)] puts on the card: the
    [h3], the [p] and the [span.task-id]. *)
Record TaskCardTexts := mkTaskCardTexts {
  titleText : string;
  descriptionText : string;
  taskIdText : string
}.

Definition createTaskElement (task : Task) : TaskCardTexts :=
  {| titleText := truncateText (title task) 60 "...";
     descriptionText :=
       if decide (description task = "") then "No description"
       else description task;
     taskIdText :=
       String "#"
         (match splitOn "_" (id task) !! 1%nat with
          | Some piece =>
              if decide (piece = "") then substring 0 8 (id task) else piece
          | None => substring 0 8 (id task)
          end) |}.

(** ** More of the form handlers ([EventHandlers]) *)

(** [handleTitleValidation(input)]: the error shown under the title field
    while typing, if any. *)
Definition handleTitleValidation (value : string) : option string :=
  if decide (100 < String.length value)%nat
  then Some "Title must be 100 characters or less" else None.

(** [handleTextareaResize(textarea)]: the height in pixels and whether
    [overflowY] is set to [auto] (otherwise [hidden]); [scrollHeight] is
    an integer. *)
Definition handleTextareaResize (scrollHeight : Z) : Z * bool :=
  let minHeight := 60 in
  let maxHeight := 200 in
  let newHeight := Z.min (Z.max scrollHeight minHeight) maxHeight in
  (newHeight, bool_decide (scrollHeight > maxHeight)).

(** ** More of the drag-and-drop engine ([DragDrop]) *)

(** [createPlaceholder()]: the former placeholder, if any, is taken out of
    the document and a new one, not yet in the document, replaces it. *)
Definition createPlaceholder (dd : DragDrop) : DragDrop :=
  mkDragDrop (draggedElement dd) (Some false).

(** [handleDragStart(e, taskCard, taskData)], as far as the fields go;
    [taskId] is [taskData.id]. *)
Definition handleDragStart (taskId : string) (dd : DragDrop) : DragDrop :=
  createPlaceholder (mkDragDrop (Some taskId) (placeholder dd)).

(** A dragover event: [e.target.closest('.column')] and [e.clientY]. *)
Record DragOverEvent := mkDragOverEvent {
  overColumn : option Column;
  clientY : Q
}.

(** [handleDragOver(e)]: the fields of the engine and the column under the
    pointer after the call. *)
Definition handleDragOver (e : DragOverEvent) (dd : DragDrop)
    : DragDrop * option Column :=
  match draggedElement dd with
  | None => (dd, overColumn e)
  | Some _ =>
      match overColumn e with
      | None => (dd, None)
      | Some column =>
          let '(dd', column') := handleInsertionPoint dd (clientY e) column in
          (dd', Some column')
      end
  end.

(** ** Persistence ([Storage]) *)

Definition STORAGE_KEY : string := "kanban_tasks".

(** The [localStorage] of the browser: [denied] when every access to it
    throws, and the items it holds. *)
Record LocalStorage := mkLocalStorage {
  denied : bool;
  items : gmap string string
}.

Section Storage.
(** The values of JavaScript that [JSON.parse] can return, with the empty
    array among them, and the two functions of [JSON] as far as [Storage]
    uses them; [quota items key value] tells whether [setItem(key, value)]
    is accepted by a storage holding [items] or throws. *)
Context {JsValue : Type}.
Variable emptyArray : JsValue.
Variable stringify : JsValue → string.
Variable parse : string → completion JsValue.
Variable quota : gmap string string → string → string → bool.

(** [Storage.saveTasks(tasks)]. *)
Definition saveTasks (tasks : JsValue) (ls : LocalStorage) : LocalStorage :=
  let tasksJson := stringify tasks in
  if denied ls then ls
  else if quota (items ls) STORAGE_KEY tasksJson
       then mkLocalStorage false (<[STORAGE_KEY := tasksJson]> (items ls))
       else ls.

(** [Storage.loadTasks()]. *)
Definition loadTasks (ls : LocalStorage) : JsValue :=
  if denied ls then emptyArray
  else match items ls !! STORAGE_KEY with
       | None => emptyArray
       | Some tasksJson =>
           if decide (tasksJson = "") then emptyArray
           else match parse tasksJson with
                | Normal value => value
                | Throw _ => emptyArray
                end
       end.

(** [Storage.clearTasks()]. *)
Definition clearTasks (ls : LocalStorage) : LocalStorage :=
  if denied ls then ls
  else mkLocalStorage false (delete STORAGE_KEY (items ls)).

(** [Storage.isAvailable()]: the result and the storage after the call. *)
Definition isAvailable (ls : LocalStorage) : bool * LocalStorage :=
  let test := "localStorage_test" in
  if denied ls then (false, ls)
  else if quota (items ls) test test
       then (true, mkLocalStorage false (delete test (<[test := test]> (items ls))))
       else (false, ls).
End Storage.

(** ** Notions the properties are stated with *)

(** A string that [trimStart] leaves as it is: empty, or with a first
    character that is not white space. *)
Definition headKept (s : string) : Prop :=
  match s with
  | EmptyString => True
  | String c _ => isWhiteSpace c = false
  end.

(** The number of cards at the head of [cards] whose middle lies strictly
    above the pointer. *)
Fixpoint leadingAbove (mouseY : Q) (cards : list Card) : nat :=
  match cards with
  | [] => O
  | card :: rest =>
      if decide (cardMiddle card < mouseY)%Q
      then S (leadingAbove mouseY rest) else O
  end.

(** The number of all cards whose middle lies strictly above the pointer. *)
Definition countAbove (mouseY : Q) (cards : list Card) : nat :=
  length (filter (λ card, (cardMiddle card < mouseY)%Q) cards).

(** A card, and the children of a column, after the rectangles have been
    read again: the card [card] now has the middle [middleOf card]. *)
Definition reflowCard (middleOf : Card → Q) (card : Card) : Card :=
  mkCard (card_taskId card) (dragging card) (middleOf card).

Definition reflow (middleOf : Card → Q) (children : list Node) : list Node :=
  (λ node, match node with
           | CardNode card => CardNode (reflowCard middleOf card)
           | other => other
           end) <$> children.

(** The middles do not decrease in DOM order. *)
Definition middlesAscend (cards : list Card) : Prop :=
  Sorted (λ a b, (cardMiddle a <= cardMiddle b)%Q) cards.

(** ** Sample data *)

Fixpoint repeatChar (c : ascii) (n : nat) : string :=
  match n with
  | O => EmptyString
  | S m => String c (repeatChar c m)
  end.

Definition sampleTask (i : string) (s : string) : Task :=
  mkTask i i "" (Some s) "2024-01-01T00:00:00.000Z" "2024-01-01T00:00:00.000Z".

Definition sampleEnv : Env :=
  mkEnv "task_1700000000000_abc1234" "2024-01-02T00:00:00.000Z"
        "2024-01-02T00:00:00.000Z".

Definition sampleCard (i : string) (middle : Q) : Node :=
  CardNode (mkCard i false middle).

(** Three cards whose middles are at y = 100, 200, 300. *)
Definition sampleColumn : Column :=
  mkColumn (Some "todo")
    (Some [sampleCard "x" 100; sampleCard "y" 200; sampleCard "z" 300]).

(** Three cards whose middles are, in DOM order, at y = 100, 300, 200. *)
Definition shuffledColumn : Column :=
  mkColumn (Some "todo")
    (Some [sampleCard "x" 100; sampleCard "z" 300; sampleCard "y" 200]).

(** * Properties *)

(** ** Lists: filtering *)

Section filter_facts.
Context {A : Type} (P : A → Prop) `{!∀ x, Decision (P x)}.

Lemma filter_keeps_all (l : list A) : Forall P l → filter P l = l.
Proof.
  induction 1 as [|x l HP _ IH]; [done|].
  by rewrite filter_cons_True, IH.
Qed.

Lemma filter_drops_all (l : list A) : Forall (λ x, ¬ P x) l → filter P l = [].
Proof.
  induction 1 as [|x l HP _ IH]; [done|].
  by rewrite filter_cons_False.
Qed.

Lemma Forall_filter_self (l : list A) : Forall P (filter P l).
Proof. apply Forall_forall. intros x [? _]%list_elem_of_filter. done. Qed.

End filter_facts.

(** ** The task store *)

Section store_facts.
Implicit Types (tasks : list Task) (task : Task) (taskId : string).
Implicit Types (s : option string) (position : Z).

Lemma findTask_Some taskId tasks i task :
  findTask taskId tasks = Some (i, task) →
  tasks !! i = Some task ∧ id task = taskId.
Proof. unfold findTask. rewrite list_find_Some. by intros (? & ? & _). Qed.

Lemma findTask_None taskId tasks :
  findTask taskId tasks = None ↔ taskId ∉ id <$> tasks.
Proof.
  unfold findTask. rewrite list_find_None, Forall_forall, list_elem_of_fmap.
  split.
  - intros Hall (t & -> & Ht). by apply (Hall t).
  - intros Hout t Ht Hid. apply Hout. by exists t.
Qed.

Lemma findTask_middle taskId task (l1 l2 : list Task) :
  Forall (λ t, id t ≠ taskId) l1 → id task = taskId →
  findTask taskId (l1 ++ task :: l2) = Some (length l1, task).
Proof.
  intros Hl1 Hid. unfold findTask. apply list_find_Some. split_and!.
  - by rewrite list_lookup_middle.
  - done.
  - intros j y Hj Hlt. rewrite lookup_app_l in Hj by done.
    apply (Forall_lookup_1 _ _ _ _ Hl1 Hj).
Qed.

Lemma clampIndex_le position n : (clampIndex position n ≤ n)%nat.
Proof. unfold clampIndex. case_decide; lia. Qed.

Lemma clampIndex_outside position n :
  position < 0 ∨ Z.of_nat n < position → clampIndex position n = n.
Proof. unfold clampIndex. case_decide; [lia|done]. Qed.

(** The list [moveTaskToPosition] builds when it finds the task. *)
Lemma moveTaskToPosition_found taskId s position tasks i task :
  findTask taskId tasks = Some (i, task) →
  let statusTasks := filter (λ t, status t = s) (delete i tasks) in
  let otherTasks := filter (λ t, status t ≠ s) (delete i tasks) in
  let k := clampIndex position (length statusTasks) in
  moveTaskToPosition taskId s position tasks
  = otherTasks ++ take k statusTasks ++ task :: drop k statusTasks.
Proof.
  intros Hfind. unfold moveTaskToPosition. rewrite Hfind. cbn zeta.
  unfold clampIndex, spliceIn. case_decide; [done|].
  by rewrite take_ge, drop_all.
Qed.

Lemma moveTaskToPosition_missing taskId s position tasks :
  findTask taskId tasks = None →
  moveTaskToPosition taskId s position tasks = tasks.
Proof. intros Hfind. unfold moveTaskToPosition. by rewrite Hfind. Qed.

(** [moveTaskToPosition] rearranges the tasks and rewrites none of them. *)
Lemma moveTaskToPosition_Permutation taskId s position tasks :
  moveTaskToPosition taskId s position tasks ≡ₚ tasks.
Proof.
  destruct (findTask taskId tasks) as [[i task]|] eqn:Hfind.
  - rewrite (moveTaskToPosition_found _ _ _ _ _ _ Hfind). cbn zeta.
    apply findTask_Some in Hfind as [Hi _].
    etrans; [|symmetry; apply (delete_Permutation tasks i task Hi)].
    rewrite app_assoc, <- Permutation_middle, <- app_assoc, take_drop.
    constructor. rewrite Permutation_app_comm.
    apply (filter_app_complement (λ t, status t = s)).
  - by rewrite moveTaskToPosition_missing.
Qed.
End store_facts.

Section store_order.
Implicit Types (tasks : list Task) (task : Task) (taskId : string).
Implicit Types (s : option string) (position : Z).

Lemma filter_status_of_others s tasks :
  filter (λ t, status t = s) (filter (λ t, status t ≠ s) tasks) = [].
Proof. apply filter_drops_all, (Forall_filter_self (λ t, status t ≠ s)). Qed.

Lemma filter_others_of_status s tasks :
  filter (λ t, status t ≠ s) (filter (λ t, status t = s) tasks) = [].
Proof.
  apply filter_drops_all.
  eapply Forall_impl; [apply (Forall_filter_self (λ t, status t = s))|].
  intros t Ht Hne. by apply Hne.
Qed.

Lemma filter_status_of_status s tasks :
  filter (λ t, status t = s) (filter (λ t, status t = s) tasks)
  = filter (λ t, status t = s) tasks.
Proof. apply filter_keeps_all, Forall_filter_self. Qed.

Lemma filter_others_of_others s tasks :
  filter (λ t, status t ≠ s) (filter (λ t, status t ≠ s) tasks)
  = filter (λ t, status t ≠ s) tasks.
Proof. apply filter_keeps_all, (Forall_filter_self (λ t, status t ≠ s)). Qed.

(** The view of status [s] after a move of a task that has status [s]. *)
Lemma getTasksByStatus_moved taskId s position tasks i task :
  findTask taskId tasks = Some (i, task) → status task = s →
  let statusTasks := getTasksByStatus s (delete i tasks) in
  let k := clampIndex position (length statusTasks) in
  getTasksByStatus s (moveTaskToPosition taskId s position tasks)
  = take k statusTasks ++ task :: drop k statusTasks.
Proof.
  intros Hfind Hs. rewrite (moveTaskToPosition_found _ _ _ _ _ _ Hfind).
  cbn zeta. unfold getTasksByStatus.
  rewrite !filter_app, filter_status_of_others, filter_cons_True by done.
  cbn [app]. f_equal; [|f_equal]; apply filter_keeps_all.
  - apply Forall_take, Forall_filter_self.
  - apply Forall_drop, Forall_filter_self.
Qed.

(** With ids that are pairwise distinct, no other task carries the id of
    the one at index [i]. *)
Lemma NoDup_ids_delete tasks i task :
  NoDup (id <$> tasks) → tasks !! i = Some task →
  Forall (λ t, id t ≠ id task) (delete i tasks).
Proof.
  intros Hnd Hi. rewrite <- (take_drop_middle tasks i task Hi) in Hnd.
  rewrite fmap_app, fmap_cons in Hnd.
  apply NoDup_app in Hnd as (_ & Hout & Hnd).
  apply NoDup_cons in Hnd as [Hnotin _].
  rewrite delete_take_drop. apply Forall_app. split; apply Forall_forall.
  - intros t Ht Heq. apply (Hout (id t)).
    + apply list_elem_of_fmap. by exists t.
    + rewrite Heq. left.
  - intros t Ht Heq. apply Hnotin. apply list_elem_of_fmap.
    exists t. by split.
Qed.
End store_order.

(** ** moveTaskToPosition: where the task lands *)

(** C1, as the design document states it, fails: [moveTaskToPosition]
    does not assign [status].  Moving the only task, of status [todo], to
    [done] at position 0 returns the list as it was: the task keeps status
    [todo] and the [done] view stays empty. *)
Lemma moveTaskToPosition_status_counterexample :
  let tasks := [sampleTask "A" "todo"] in
  let tasks' := moveTaskToPosition "A" (Some "done") 0 tasks in
  findTask "A" tasks = Some (0%nat, sampleTask "A" "todo") ∧
  clampIndex 0 (length (getTasksByStatus (Some "done") (delete 0%nat tasks))) = 0%nat ∧
  getTasksByStatus (Some "done") tasks' !! 0%nat = None ∧
  status <$> tasks' = [Some "todo"].
Proof. by vm_compute. Qed.

(** C1, amended: for a task present in the store, [moveTaskToPosition]
    rewrites no task (the list after the call is a rearrangement of the
    list before it, so no status is set); it puts the tasks of the target
    status, the moved one apart, at the end of the list and the moved task
    among them at the clamped index; and when the moved task already has
    the target status, [getTasksByStatus] of that status holds it at the
    clamped index. *)
Theorem moveTaskToPosition_index taskId s position tasks i task :
  findTask taskId tasks = Some (i, task) →
  let statusTasks := getTasksByStatus s (delete i tasks) in
  let otherTasks := filter (λ t, status t ≠ s) (delete i tasks) in
  let k := clampIndex position (length statusTasks) in
  moveTaskToPosition taskId s position tasks ≡ₚ tasks ∧
  moveTaskToPosition taskId s position tasks
  = otherTasks ++ take k statusTasks ++ task :: drop k statusTasks ∧
  (status task = s →
   getTasksByStatus s (moveTaskToPosition taskId s position tasks) !! k
   = Some task).
Proof.
  intros Hfind statusTasks otherTasks k. split_and!.
  - apply moveTaskToPosition_Permutation.
  - by apply moveTaskToPosition_found.
  - intros Hs. rewrite (getTasksByStatus_moved _ _ _ _ _ _ Hfind Hs).
    cbn zeta. fold statusTasks k.
    rewrite list_lookup_middle; [done|].
    rewrite length_take_le; [done|]. apply clampIndex_le.
Qed.

Lemma moveTaskToPosition_index_witness :
  let tasks := [sampleTask "A" "todo"; sampleTask "B" "todo"; sampleTask "C" "done"] in
  findTask "A" tasks = Some (0%nat, sampleTask "A" "todo") ∧
  status (sampleTask "A" "todo") = Some "todo" ∧
  getTasksByStatus (Some "todo") (moveTaskToPosition "A" (Some "todo") 1 tasks) !! 1%nat
  = Some (sampleTask "A" "todo").
Proof.
  intros tasks. split; [reflexivity|]. split; [reflexivity|].
  apply (moveTaskToPosition_index "A" (Some "todo") 1 tasks 0 (sampleTask "A" "todo"));
    reflexivity.
Defined.

(** ** moveTaskToPosition: positions out of range *)

(** C8, as the design document states it, fails: [moveTaskToPosition] does
    not assign [status], so a task of another status is appended to the
    list but does not enter the status group.  With two tasks of status
    [done] and a task [T] of status [todo], the move of [T] to [done] at
    position 999 leaves the [done] view with its two tasks and [T] in the
    [todo] view; and when [T] is itself one of two tasks of status [done],
    it is the second of two afterwards, not a third entry. *)
Lemma moveTaskToPosition_clamp_counterexample :
  let T := sampleTask "T" "todo" in
  let D1 := sampleTask "D1" "done" in
  let D2 := sampleTask "D2" "done" in
  let T' := sampleTask "T" "done" in
  findTask "T" [D1; T; D2] = Some (1%nat, T) ∧
  length (getTasksByStatus (Some "done") [D1; T; D2]) = 2%nat ∧
  getTasksByStatus (Some "done")
    (moveTaskToPosition "T" (Some "done") 999 [D1; T; D2]) = [D1; D2] ∧
  getTasksByStatus (Some "done")
    (moveTaskToPosition "T" (Some "done") 999 [D1; T; D2]) !! 2%nat = None ∧
  getTasksByStatus (Some "todo")
    (moveTaskToPosition "T" (Some "done") 999 [D1; T; D2]) = [T] ∧
  length (getTasksByStatus (Some "done") [T'; D1]) = 2%nat ∧
  getTasksByStatus (Some "done")
    (moveTaskToPosition "T" (Some "done") 999 [T'; D1]) = [D1; T'].
Proof. intros T D1 D2 T'. split_and!; vm_compute; reflexivity. Qed.

(** C8, amended: for a task present in the store and a position that is
    negative or greater than the number of the other tasks of the target
    status (hence also one greater than the number of all tasks of that
    status), [moveTaskToPosition] returns normally, changes no status and
    puts the task at the end of the list, right after the other tasks of
    the target status.  When the status of the task already is the target
    one, the task is then the last entry of the view of that status: with
    two other tasks of status [done] and position 999 it is the third;
    otherwise the view holds the other tasks only. *)
Theorem moveTaskToPosition_clamp taskId s position tasks i task :
  findTask taskId tasks = Some (i, task) →
  position < 0 ∨ Z.of_nat (length (getTasksByStatus s (delete i tasks))) < position →
  let statusTasks := getTasksByStatus s (delete i tasks) in
  let otherTasks := filter (λ t, status t ≠ s) (delete i tasks) in
  exec (OpMoveToPosition taskId s position) tasks
  = (Normal tt, otherTasks ++ statusTasks ++ [task]) ∧
  (status task = s →
   getTasksByStatus s (moveTaskToPosition taskId s position tasks)
   = statusTasks ++ [task]) ∧
  (status task ≠ s →
   getTasksByStatus s (moveTaskToPosition taskId s position tasks)
   = statusTasks).
Proof.
  intros Hfind Hout statusTasks otherTasks.
  pose proof (clampIndex_outside position (length statusTasks) Hout) as Hk.
  assert (Hmove : moveTaskToPosition taskId s position tasks
                  = otherTasks ++ statusTasks ++ [task]).
  { rewrite (moveTaskToPosition_found _ _ _ _ _ _ Hfind).
    cbn zeta. fold (getTasksByStatus s (delete i tasks)).
    fold statusTasks otherTasks. by rewrite Hk, take_ge, drop_all. }
  split_and!.
  - cbn [exec]. by rewrite Hmove.
  - intros Hs. rewrite (getTasksByStatus_moved _ _ _ _ _ _ Hfind Hs).
    cbn zeta. fold statusTasks. by rewrite Hk, take_ge, drop_all.
  - intros Hs. rewrite Hmove. unfold getTasksByStatus, statusTasks, otherTasks.
    rewrite !filter_app, filter_status_of_others.
    unfold getTasksByStatus. rewrite filter_status_of_status.
    rewrite (filter_cons_False _ task []) by done.
    cbn [app]. by rewrite app_nil_r.
Qed.

Lemma moveTaskToPosition_clamp_witness :
  let T := sampleTask "T" "done" in
  let U := sampleTask "U" "todo" in
  let D1 := sampleTask "D1" "done" in
  let D2 := sampleTask "D2" "done" in
  findTask "T" [D1; T; D2] = Some (1%nat, T) ∧
  (999 < 0 ∨ Z.of_nat (length (getTasksByStatus (Some "done") (delete 1%nat [D1; T; D2]))) < 999) ∧
  status T = Some "done" ∧
  exec (OpMoveToPosition "T" (Some "done") 999) [D1; T; D2]
  = (Normal tt, [D1; D2; T]) ∧
  getTasksByStatus (Some "done")
    (moveTaskToPosition "T" (Some "done") 999 [D1; T; D2]) = [D1; D2; T] ∧
  findTask "U" [D1; U; D2] = Some (1%nat, U) ∧
  status U ≠ Some "done" ∧
  getTasksByStatus (Some "done")
    (moveTaskToPosition "U" (Some "done") 999 [D1; U; D2]) = [D1; D2].
Proof.
  intros T U D1 D2.
  assert (Hout : 999 < 0 ∨ Z.of_nat (length (getTasksByStatus (Some "done")
                                       (delete 1%nat [D1; T; D2]))) < 999).
  { right. vm_compute. reflexivity. }
  assert (Hout' : 999 < 0 ∨ Z.of_nat (length (getTasksByStatus (Some "done")
                                        (delete 1%nat [D1; U; D2]))) < 999).
  { right. vm_compute. reflexivity. }
  assert (HU : status U ≠ Some "done") by (vm_compute; discriminate).
  pose proof (moveTaskToPosition_clamp "T" (Some "done") 999 [D1; T; D2] 1 T
                eq_refl Hout) as (Hlist & Hview & _).
  pose proof (moveTaskToPosition_clamp "U" (Some "done") 999 [D1; U; D2] 1 U
                eq_refl Hout') as (_ & _ & Hother).
  split; [reflexivity|]. split; [exact Hout|]. split; [reflexivity|].
  split; [exact Hlist|]. split; [exact (Hview eq_refl)|].
  split; [reflexivity|]. split; [exact HU|]. exact (Hother HU).
Defined.

(** ** Unknown ids *)

(** C7: for an id that no task of the store carries, [updateTaskStatus],
    [deleteTask] and [moveTaskToPosition] return normally and leave the task
    list as it was. *)
Theorem unknown_id_noop taskId tasks now s position :
  taskId ∉ (id <$> tasks) →
  exec (OpUpdateStatus now taskId s) tasks = (Normal tt, tasks) ∧
  exec (OpDelete taskId) tasks = (Normal tt, tasks) ∧
  exec (OpMoveToPosition taskId s position) tasks = (Normal tt, tasks).
Proof.
  intros Hfind%findTask_None. cbn [exec].
  unfold updateTaskStatus, deleteTask, moveTaskToPosition.
  by rewrite Hfind.
Qed.

Lemma unknown_id_noop_witness :
  let tasks := [sampleTask "A" "todo"; sampleTask "B" "done"] in
  ("nope" ∉ (id <$> tasks)) ∧
  exec (OpUpdateStatus "2024-01-03T00:00:00.000Z" "nope" (Some "done")) tasks
  = (Normal tt, tasks) ∧
  exec (OpDelete "nope") tasks = (Normal tt, tasks) ∧
  exec (OpMoveToPosition "nope" (Some "done") 0) tasks = (Normal tt, tasks).
Proof.
  intros tasks.
  assert (Hout : "nope" ∉ id <$> tasks).
  { apply (proj1 (findTask_None "nope" tasks)). reflexivity. }
  split; [exact Hout|].
  exact (unknown_id_noop "nope" tasks "2024-01-03T00:00:00.000Z" (Some "done") 0 Hout).
Defined.

(** ** Idempotence of moveTaskToPosition *)

(** A list of the shape [moveTaskToPosition] builds is left as it is by
    the same call. *)
Lemma moveTaskToPosition_rebuilt taskId s position task
    (otherTasks statusTasks : list Task) :
  Forall (λ t, status t ≠ s) otherTasks →
  Forall (λ t, status t = s) statusTasks →
  id task = taskId →
  Forall (λ t, id t ≠ taskId) (otherTasks ++ statusTasks) →
  let k := clampIndex position (length statusTasks) in
  moveTaskToPosition taskId s position
    (otherTasks ++ take k statusTasks ++ task :: drop k statusTasks)
  = otherTasks ++ take k statusTasks ++ task :: drop k statusTasks.
Proof.
  intros Hot Hst Hid Hids k.
  apply Forall_app in Hids as [Hids1 Hids2].
  assert (Hfind : findTask taskId
            (otherTasks ++ take k statusTasks ++ task :: drop k statusTasks)
          = Some (length (otherTasks ++ take k statusTasks), task)).
  { rewrite app_assoc. apply findTask_middle; [|done].
    apply Forall_app. split; [done|]. by apply Forall_take. }
  rewrite (moveTaskToPosition_found _ _ _ _ _ _ Hfind) at 1. cbn zeta.
  assert (Hdel : delete (length (otherTasks ++ take k statusTasks))
            (otherTasks ++ take k statusTasks ++ task :: drop k statusTasks)
          = otherTasks ++ statusTasks).
  { by rewrite app_assoc, delete_middle, <- app_assoc, take_drop. }
  rewrite Hdel, !filter_app.
  rewrite (filter_drops_all (λ t, status t = s) otherTasks) by done.
  rewrite (filter_keeps_all (λ t, status t = s) statusTasks) by done.
  rewrite (filter_keeps_all (λ t, status t ≠ s) otherTasks) by done.
  rewrite (filter_drops_all (λ t, status t ≠ s) statusTasks).
  - cbn [app]. by rewrite app_nil_r.
  - eapply Forall_impl; [exact Hst|]. intros t Ht Hne. by apply Hne.
Qed.

(** With two tasks of one id the second call moves the other one: the
    hypothesis of the next theorem cannot be dropped. *)
Example moveTaskToPosition_twice_duplicate_ids :
  let X1 := mkTask "a" "first" "" (Some "todo") "" "" in
  let X2 := mkTask "a" "second" "" (Some "todo") "" "" in
  moveTaskToPosition "a" (Some "todo") 1 [X1; X2] = [X2; X1] ∧
  moveTaskToPosition "a" (Some "todo") 1 [X2; X1] = [X1; X2].
Proof. split; reflexivity. Qed.

(** C9: in a store whose ids are pairwise distinct, a second
    [moveTaskToPosition] with the same arguments, run on the list the first
    one produced, returns that list unchanged. *)
Theorem moveTaskToPosition_idempotent taskId s position tasks :
  NoDup (id <$> tasks) →
  moveTaskToPosition taskId s position
    (moveTaskToPosition taskId s position tasks)
  = moveTaskToPosition taskId s position tasks.
Proof.
  intros Hnd. destruct (findTask taskId tasks) as [[i task]|] eqn:Hfind.
  2: { by rewrite !(moveTaskToPosition_missing _ _ _ _ Hfind). }
  rewrite (moveTaskToPosition_found _ _ _ _ _ _ Hfind). cbn zeta.
  destruct (findTask_Some _ _ _ _ Hfind) as [Hi Hid].
  pose proof (NoDup_ids_delete tasks i task Hnd Hi) as Hrest.
  rewrite Hid in Hrest.
  apply moveTaskToPosition_rebuilt; [| |done|].
  - apply (Forall_filter_self (λ t, status t ≠ s)).
  - apply Forall_filter_self.
  - apply Forall_app. split; apply Forall_forall;
      intros t [_ Ht]%list_elem_of_filter;
      by apply (proj1 (Forall_forall _ _) Hrest).
Qed.

Lemma moveTaskToPosition_idempotent_witness :
  let tasks := [sampleTask "A" "todo"; sampleTask "B" "todo"; sampleTask "C" "inprogress"] in
  NoDup (id <$> tasks) ∧
  moveTaskToPosition "A" (Some "todo") 1 (moveTaskToPosition "A" (Some "todo") 1 tasks)
  = moveTaskToPosition "A" (Some "todo") 1 tasks.
Proof.
  intros tasks.
  assert (Hnd : NoDup (id <$> tasks)).
  { apply (bool_decide_unpack _). vm_compute. exact I. }
  split; [exact Hnd|].
  exact (moveTaskToPosition_idempotent "A" (Some "todo") 1 tasks Hnd).
Defined.

(** ** Stability of moveTaskToPosition *)

Section before_facts.
Implicit Types (x y a : Task) (l : list Task).



End before_facts.

Section filter_twice.
Context {A : Type} (Q P : A → Prop).
Context `{!∀ x, Decision (Q x)} `{!∀ x, Decision (P x)}.

Lemma filter_filter_sub (l : list A) :
  (∀ x, Q x → P x) → filter Q (filter P l) = filter Q l.
Proof.
  intros Hsub. induction l as [|a l IH]; [done|].
  destruct (decide (P a)) as [Ha|Ha].
  - rewrite (filter_cons_True P) by done.
    rewrite !(filter_cons Q), IH. done.
  - rewrite (filter_cons_False P) by done.
    rewrite IH, (filter_cons_False Q); [done|]. intros Hq. by apply Ha, Hsub.
Qed.

End filter_twice.





(** ** The status enumeration *)

(** C5, as the design document states it, fails: [updateTaskStatus] stores
    the status it is given.  After one [createTask] and one
    [updateTaskStatus] the only task has status [blocked]; and with the
    status of the middle column, [inprogress], it has a status that is
    not in the enumeration as the document spells it. *)
Lemma status_enumeration_counterexample :
  let now := "2024-01-03T00:00:00.000Z" in
  let created := (exec (OpCreate sampleEnv "Write report" "") []).2 in
  let blocked :=
    (exec (OpUpdateStatus now (uniqueId sampleEnv) (Some "blocked")) created).2 in
  let started :=
    (exec (OpUpdateStatus now (uniqueId sampleEnv) (Some "inprogress")) created).2 in
  reachable (λ _, True) [] blocked ∧
  ¬ Forall (λ t, status t ∈ specStatuses) blocked ∧
  ¬ Forall (λ t, status t ∈ codeStatuses) blocked ∧
  reachable knownStatusOp [] started ∧
  ¬ Forall (λ t, status t ∈ specStatuses) started.
Proof.
  intros now created blocked started. split_and!.
  - apply reachable_step; [|done].
    apply (reachable_step _ _ [] (OpCreate sampleEnv "Write report" ""));
      [constructor|done].
  - by apply (bool_decide_unpack _).
  - by apply (bool_decide_unpack _).
  - apply reachable_step; [|by apply (bool_decide_unpack _)].
    apply (reachable_step _ _ [] (OpCreate sampleEnv "Write report" ""));
      [constructor|done].
  - by apply (bool_decide_unpack _).
Qed.

(** C5, amended: from an initial store whose statuses are all among
    [todo], [inprogress], [done], every sequence of [createTask],
    [deleteTask], [moveTaskToPosition] and of [updateTaskStatus] with a new
    status among these three leads to a store whose statuses are all among
    these three. *)
Theorem status_enumeration_invariant init tasks :
  Forall (λ t, status t ∈ codeStatuses) init →
  reachable knownStatusOp init tasks →
  Forall (λ t, status t ∈ codeStatuses) tasks.
Proof.
  intros Hinit Hreach. induction Hreach as [|tasks op _ IH Hop]; [done|].
  destruct op as [env title0 description0|now taskId newStatus
                 |taskId s position|taskId]; cbn [exec].
  - unfold createTask. case_decide; [done|]. cbn [snd].
    apply Forall_app. split; [done|].
    apply Forall_singleton. cbn [status]. by apply (bool_decide_unpack _).
  - cbn [snd]. unfold updateTaskStatus.
    destruct (findTask taskId tasks) as [[i task]|]; [|done].
    by apply Forall_insert.
  - cbn [snd]. by rewrite moveTaskToPosition_Permutation.
  - cbn [snd]. unfold deleteTask.
    destruct (findTask taskId tasks) as [[i task]|]; [|done].
    by apply Forall_delete.
Qed.

Lemma status_enumeration_invariant_witness :
  let now := "2024-01-03T00:00:00.000Z" in
  let created := (exec (OpCreate sampleEnv "Write report" "") []).2 in
  let finished :=
    (exec (OpUpdateStatus now (uniqueId sampleEnv) (Some "done")) created).2 in
  Forall (λ t, status t ∈ codeStatuses) [] ∧
  reachable knownStatusOp [] finished ∧
  Forall (λ t, status t ∈ codeStatuses) finished.
Proof.
  intros now created finished.
  assert (Hreach : reachable knownStatusOp [] finished).
  { apply reachable_step; [|by apply (bool_decide_unpack _)].
    apply (reachable_step _ _ [] (OpCreate sampleEnv "Write report" ""));
      [constructor|exact I]. }
  split; [constructor|]. split; [exact Hreach|].
  exact (status_enumeration_invariant [] finished (Forall_nil_2 _) Hreach).
Defined.

(** ** createTask *)

Lemma trimEnd_empty (s : string) : trimEnd s = "" ↔ allWhiteSpace s = true.
Proof.
  induction s as [|c rest IH]; [done|].
  cbn [trimEnd allWhiteSpace]. rewrite andb_true_iff, <- IH.
  destruct (trimEnd rest) as [|c' kept]; destruct (isWhiteSpace c);
    split; try done; intros [? ?]; done.
Qed.

(** The titles that [createTask] refuses are those made of white space
    only. *)
Lemma trim_empty (s : string) : trim s = "" ↔ allWhiteSpace s = true.
Proof.
  unfold trim. induction s as [|c rest IH]; [done|].
  cbn [trimStart allWhiteSpace]. destruct (isWhiteSpace c) eqn:Hc.
  - by rewrite IH.
  - rewrite trimEnd_empty. cbn [allWhiteSpace]. by rewrite Hc.
Qed.

Lemma createTask_accepts env title0 description0 tasks :
  trim title0 ≠ "" →
  createTask env title0 description0 tasks
  = (Normal (mkTask (uniqueId env) (trim title0) (trim description0)
               (Some "todo") (createdNow env) (updatedNow env)),
     tasks ++ [mkTask (uniqueId env) (trim title0) (trim description0)
                 (Some "todo") (createdNow env) (updatedNow env)]).
Proof. intros Hne. unfold createTask. by case_decide. Qed.

(** C6: when the title is empty after trimming, as are the empty title and
    the title of three spaces, [createTask] throws and the task list is
    what it was; otherwise it returns a task of status [todo], which it has
    appended at the end of the list. *)
Theorem createTask_validation env title0 description0 tasks :
  (trim title0 = "" →
   createTask env title0 description0 tasks
   = (Throw "Task title is required", tasks)) ∧
  (trim title0 ≠ "" →
   ∃ task, createTask env title0 description0 tasks
           = (Normal task, tasks ++ [task]) ∧
           status task = Some "todo") ∧
  createTask env "" description0 tasks
  = (Throw "Task title is required", tasks) ∧
  createTask env "   " description0 tasks
  = (Throw "Task title is required", tasks).
Proof.
  split_and!; [| |done..].
  - intros Hempty. unfold createTask. by case_decide.
  - intros Hne. eexists. split; [by apply createTask_accepts|done].
Qed.

Lemma createTask_validation_witness :
  trim "   " = "" ∧
  createTask sampleEnv "   " "x" [sampleTask "A" "todo"]
  = (Throw "Task title is required", [sampleTask "A" "todo"]) ∧
  trim "  Write report " ≠ "" ∧
  ∃ task, createTask sampleEnv "  Write report " "x" [sampleTask "A" "todo"]
          = (Normal task, [sampleTask "A" "todo"] ++ [task]) ∧
          status task = Some "todo".
Proof.
  assert (Hne : trim "  Write report " ≠ "") by (vm_compute; discriminate).
  split; [reflexivity|]. split.
  - exact (proj1 (createTask_validation sampleEnv "   " "x"
                    [sampleTask "A" "todo"]) eq_refl).
  - split; [exact Hne|].
    exact (proj1 (proj2 (createTask_validation sampleEnv "  Write report " "x"
                           [sampleTask "A" "todo"])) Hne).
Defined.

(** C10: [createTask] stores the trimmed title and the trimmed description
    and checks no length: whenever the title is not empty after trimming,
    however long it and the description are, it returns a task with
    these two fields.  The limits of 100 and 500 characters are those of
    [handleFormSubmission], which for such a title of more than 100
    characters after trimming, or a description of more than 500, shows a
    field error and does not call the store. *)
Theorem createTask_no_length_limit env title0 description0 tasks :
  trim title0 ≠ "" →
  (∃ task, createTask env title0 description0 tasks
           = (Normal task, tasks ++ [task]) ∧
           title task = trim title0 ∧
           description task = trim description0) ∧
  ((100 < String.length (trim title0))%nat →
   handleFormSubmission env title0 description0 tasks
   = (TitleError "Task title must be 100 characters or less", tasks)) ∧
  ((String.length (trim title0) ≤ 100)%nat →
   (500 < String.length (trim description0))%nat →
   handleFormSubmission env title0 description0 tasks
   = (DescriptionError "Description must be 500 characters or less", tasks)).
Proof.
  intros Hne. split_and!.
  - eexists. split; [by apply createTask_accepts|done].
  - intros Hlong. unfold handleFormSubmission. cbn zeta.
    rewrite decide_False by done. by rewrite decide_True.
  - intros Hshort Hlong. unfold handleFormSubmission. cbn zeta.
    rewrite decide_False by done. rewrite decide_False by lia.
    by rewrite decide_True.
Qed.

Lemma createTask_no_length_limit_witness :
  let longTitle := repeatChar "a" 101 in
  let longDescription := repeatChar "b" 501 in
  trim longTitle ≠ "" ∧
  (100 < String.length (trim longTitle))%nat ∧
  (∃ task, createTask sampleEnv longTitle longDescription []
           = (Normal task, [] ++ [task]) ∧
           title task = trim longTitle ∧
           description task = trim longDescription) ∧
  handleFormSubmission sampleEnv longTitle longDescription []
  = (TitleError "Task title must be 100 characters or less", []).
Proof.
  intros longTitle longDescription.
  assert (Hne : trim longTitle ≠ "") by (vm_compute; discriminate).
  assert (Hlong : (100 < String.length (trim longTitle))%nat)
    by (vm_compute; lia).
  split; [exact Hne|]. split; [exact Hlong|]. split.
  - exact (proj1 (createTask_no_length_limit sampleEnv longTitle
                    longDescription [] Hne)).
  - exact (proj1 (proj2 (createTask_no_length_limit sampleEnv longTitle
                           longDescription [] Hne)) Hlong).
Defined.

(** ** The insertion point of a drag *)

Section insertion_facts.
Implicit Types (mouseY : Q) (cards : list Card) (children : list Node).

(** What the loop of [handleInsertionPoint] leaves in [insertAfter]. *)
Lemma insertAfterLoop_leading mouseY cards i insertAfter :
  insertAfterLoop mouseY cards i insertAfter
  = match leadingAbove mouseY cards with
    | O => insertAfter
    | S n => Some (i + n)%nat
    end.
Proof.
  revert i insertAfter. induction cards as [|card rest IH]; intros i acc.
  - done.
  - cbn [insertAfterLoop leadingAbove]. case_decide; [|done].
    rewrite IH. destruct (leadingAbove mouseY rest) as [|n].
    + by rewrite Nat.add_0_r.
    + by rewrite Nat.add_succ_r.
Qed.

Lemma leadingAbove_le mouseY cards :
  (leadingAbove mouseY cards ≤ length cards)%nat.
Proof.
  induction cards as [|card rest IH]; cbn [leadingAbove length]; [lia|].
  case_decide; lia.
Qed.

Lemma leadingAbove_le_countAbove mouseY cards :
  (leadingAbove mouseY cards ≤ countAbove mouseY cards)%nat.
Proof.
  unfold countAbove. induction cards as [|card rest IH]; [done|].
  cbn [leadingAbove]. case_decide.
  - rewrite filter_cons_True by done. cbn [length]. lia.
  - lia.
Qed.

Lemma leadingAbove_sorted mouseY cards :
  middlesAscend cards → leadingAbove mouseY cards = countAbove mouseY cards.
Proof.
  unfold middlesAscend, countAbove. intros Hsorted.
  apply Sorted_StronglySorted in Hsorted.
  2: { intros a b c Hab Hbc. exact (Qle_trans _ _ _ Hab Hbc). }
  induction Hsorted as [|card rest Hrest IH Hall]; [done|].
  cbn [leadingAbove]. case_decide as Habove.
  - rewrite filter_cons_True by done. cbn [length]. by rewrite IH.
  - rewrite filter_cons_False by done.
    rewrite filter_drops_all; [done|].
    eapply Forall_impl; [exact Hall|]. intros other Hle Hlt.
    apply Habove. exact (Qle_lt_trans _ _ _ Hle Hlt).
Qed.

Lemma taskCardsOf_no_placeholder children :
  taskCardsOf (filter (λ node, node ≠ PlaceholderNode) children)
  = taskCardsOf children.
Proof.
  induction children as [|node rest IH]; [done|].
  destruct node as [card| |].
  - rewrite filter_cons_True by done. unfold taskCardsOf in *.
    cbn [omap list_omap]. by rewrite IH.
  - rewrite filter_cons_False by (intros Hne; by apply Hne).
    exact IH.
  - rewrite filter_cons_True by done. exact IH.
Qed.

Lemma cardsBeforePlaceholder_insertAfterCard children n :
  PlaceholderNode ∉ children →
  (n < length (taskCardsOf children))%nat →
  cardsBeforePlaceholder (insertAfterCard n children) = Some (S n) ∧
  taskCardsOf (insertAfterCard n children) = taskCardsOf children.
Proof.
  revert n. induction children as [|node rest IH]; intros n Hout Hn.
  - cbn in Hn. lia.
  - apply not_elem_of_cons in Hout as [Hnode Hout].
    destruct node as [[taskId [|] r]| |]; [| |done|].
    + change (taskCardsOf (CardNode (mkCard taskId true r) :: rest))
        with (taskCardsOf rest) in *.
      destruct (IH n Hout Hn) as [IH1 IH2].
      cbn [insertAfterCard isTaskCard dragging negb].
      change (taskCardsOf (CardNode (mkCard taskId true r)
                :: insertAfterCard n rest))
        with (taskCardsOf (insertAfterCard n rest)).
      cbn [cardsBeforePlaceholder isTaskCard dragging negb].
      by rewrite IH1, IH2.
    + change (taskCardsOf (CardNode (mkCard taskId false r) :: rest))
        with (mkCard taskId false r :: taskCardsOf rest) in *.
      cbn [insertAfterCard isTaskCard dragging negb].
      destruct n as [|j]; [done|].
      cbn [length] in Hn. destruct (IH j Hout) as [IH1 IH2]; [lia|].
      change (taskCardsOf (CardNode (mkCard taskId false r)
                :: insertAfterCard j rest))
        with (mkCard taskId false r :: taskCardsOf (insertAfterCard j rest)).
      cbn [cardsBeforePlaceholder isTaskCard dragging negb].
      by rewrite IH1, IH2.
    + change (taskCardsOf (EmptyStateNode :: rest))
        with (taskCardsOf rest) in *.
      destruct (IH n Hout Hn) as [IH1 IH2].
      cbn [insertAfterCard isTaskCard].
      change (taskCardsOf (EmptyStateNode :: insertAfterCard n rest))
        with (taskCardsOf (insertAfterCard n rest)).
      cbn [cardsBeforePlaceholder isTaskCard].
      by rewrite IH1, IH2.
Qed.
End insertion_facts.

(** C3, as the design document states it, fails on cards whose middles are
    not in ascending order: with middles 100, 300, 200 in DOM order and
    the pointer at y = 250 the loop stops at the second card, so the
    placeholder goes after one card, while two cards have their middle
    strictly above the pointer. *)
Lemma handleInsertionPoint_count_counterexample :
  let dd := mkDragDrop (Some "A") (Some false) in
  let cards := [mkCard "x" false 100; mkCard "z" false 300;
                mkCard "y" false 200] in
  cardMiddle <$> cards = [100%Q; 300%Q; 200%Q] ∧
  insertAfterLoop 250 cards 0 None = Some 0%nat ∧
  (cardsBeforePlaceholder
     <$> columnContent (handleInsertionPoint dd 250 shuffledColumn).2)
  = Some (Some 1%nat) ∧
  countAbove 250 cards = 2%nat.
Proof. intros dd cards. split_and!; vm_compute; reflexivity. Qed.

(** C3, amended: when a drag is running over a column, the placeholder is
    put after as many cards not being dragged as stand, at the head of the
    DOM order, with their middle strictly above the pointer, that is
    before the first card whose middle is at or below the pointer; when
    the middles do not decrease in DOM order this is the number of all
    such cards whose middle is strictly above the pointer.  For middles
    100, 200, 300 and the pointer at y = 150 the index is 1. *)
Theorem handleInsertionPoint_index dd mouseY column children attached :
  placeholder dd = Some attached →
  columnContent column = Some children →
  (∃ children',
     (handleInsertionPoint dd mouseY column).2
     = mkColumn (dataset_status column) (Some children') ∧
     taskCardsOf children' = taskCardsOf children ∧
     cardsBeforePlaceholder children'
     = Some (leadingAbove mouseY (taskCardsOf children)) ∧
     (middlesAscend (taskCardsOf children) →
      cardsBeforePlaceholder children'
      = Some (countAbove mouseY (taskCardsOf children)))) ∧
  (cardsBeforePlaceholder
     <$> columnContent (handleInsertionPoint dd 150 sampleColumn).2)
  = Some (Some 1%nat).
Proof.
  intros Hph Hcontent. split.
  2: { unfold handleInsertionPoint, updatePlaceholderPosition.
       rewrite Hph. vm_compute. reflexivity. }
  unfold handleInsertionPoint, updatePlaceholderPosition.
  rewrite Hcontent, Hph, insertAfterLoop_leading. cbn [snd].
  set (children1 := filter (λ node, node ≠ PlaceholderNode) children).
  assert (Hcards : taskCardsOf children1 = taskCardsOf children)
    by apply taskCardsOf_no_placeholder.
  assert (Hout : PlaceholderNode ∉ children1).
  { intros [Hne _]%list_elem_of_filter. by apply Hne. }
  pose proof (leadingAbove_le mouseY (taskCardsOf children)) as Hle.
  destruct (leadingAbove mouseY (taskCardsOf children)) as [|n] eqn:Hrun.
  - exists (PlaceholderNode :: children1). split_and!; [done..|].
    intros Hsorted. by rewrite <- (leadingAbove_sorted _ _ Hsorted), Hrun.
  - rewrite Nat.add_0_l.
    destruct (cardsBeforePlaceholder_insertAfterCard children1 n Hout)
      as [Hidx Hsame]; [rewrite Hcards; lia|].
    exists (insertAfterCard n children1). split_and!; [done|congruence|done|].
    intros Hsorted. by rewrite <- (leadingAbove_sorted _ _ Hsorted), Hrun.
Qed.

Lemma handleInsertionPoint_index_witness :
  let dd := mkDragDrop (Some "A") (Some false) in
  let children := [sampleCard "x" 100; sampleCard "y" 200;
                   sampleCard "z" 300] in
  placeholder dd = Some false ∧
  columnContent sampleColumn = Some children ∧
  (cardsBeforePlaceholder
     <$> columnContent (handleInsertionPoint dd 150 sampleColumn).2)
  = Some (Some 1%nat).
Proof.
  intros dd children. split; [reflexivity|]. split; [reflexivity|].
  exact (proj2 (handleInsertionPoint_index dd 150 sampleColumn children false
                  eq_refl eq_refl)).
Defined.

(** ** Drops *)

(** [updateTaskStatus] rewrites the task it finds in place: the same id is
    found at the same index afterwards. *)
Lemma findTask_updateTaskStatus now taskId s tasks i task :
  findTask taskId tasks = Some (i, task) →
  findTask taskId (updateTaskStatus now taskId s tasks)
  = Some (i, mkTask (id task) (title task) (description task) s
               (createdAt task) now).
Proof.
  intros Hfind. unfold updateTaskStatus. rewrite Hfind.
  unfold findTask in *. apply list_find_Some in Hfind as (Hi & Hid & Hleast).
  apply list_find_Some. split_and!.
  - apply list_lookup_insert_eq. by eapply lookup_lt_Some.
  - done.
  - intros j y Hj Hlt. rewrite list_lookup_insert_ne in Hj by lia.
    by apply (Hleast j).
Qed.

(** C4, as the design document states it, fails: [handleDrop] does not
    look at the status tag of the column.  A drop of task [A] on a column
    without [data-status], or with the tag [archive], is committed: the
    task gets the status [undefined], respectively [archive]. *)
Lemma handleDrop_unrecognized_counterexample :
  let now := "2024-01-03T00:00:00.000Z" in
  let dd := mkDragDrop (Some "A") (Some true) in
  let tasks := [sampleTask "A" "todo"; sampleTask "B" "done"] in
  let untagged := mkColumn None (Some [PlaceholderNode]) in
  let archive := mkColumn (Some "archive") (Some [PlaceholderNode]) in
  (None ∉ codeStatuses) ∧ (Some "archive" ∉ codeStatuses) ∧
  (handleDrop now (mkDropEvent (Some untagged) "A") dd tasks).2 ≠ tasks ∧
  status <$> (handleDrop now (mkDropEvent (Some untagged) "A") dd tasks).2
  = [Some "done"; None] ∧
  (handleDrop now (mkDropEvent (Some archive) "A") dd tasks).2 ≠ tasks ∧
  status <$> (handleDrop now (mkDropEvent (Some archive) "A") dd tasks).2
  = [Some "done"; Some "archive"].
Proof.
  intros now dd tasks untagged archive.
  split_and!; try (by apply (bool_decide_unpack _)); vm_compute; reflexivity.
Qed.

(** C4, amended: a drop while no drag is running, or whose target lies in
    no column, returns at once and leaves the task list and the fields of
    the engine as they are (the fields are cleared by [handleDragEnd]).  A
    drop on a column is never refused for the status tag of the column:
    missing or unrecognized, the tag is passed as it is to
    [updateTaskStatus], so that a task of the store with the dropped id
    ends with the tag as its status.  Then, unless the placeholder is in
    the document while the column has no content element, the insertion
    index is read, [moveTaskToPosition] runs with the tag and that index,
    and the fields of the engine are cleared; in that one case reading the
    index throws after the status update, and the drop neither moves the
    task nor clears the fields. *)
Theorem handleDrop_commit now e dd tasks :
  (draggedElement dd = None ∨ closestColumn e = None →
   handleDrop now e dd tasks = (Normal tt, dd, tasks)) ∧
  handleDragEnd dd = mkDragDrop None None ∧
  (∀ card column,
     draggedElement dd = Some card →
     closestColumn e = Some column →
     let newStatus := dataset_status column in
     let taskId := dataTransferText e in
     let tasks1 := updateTaskStatus now taskId newStatus tasks in
     (∀ i task,
        findTask taskId tasks = Some (i, task) →
        mkTask (id task) (title task) (description task) newStatus
          (createdAt task) now
        ∈ (handleDrop now e dd tasks).2) ∧
     (placeholder dd = Some true ∧ columnContent column = None →
      handleDrop now e dd tasks = (Throw "TypeError", dd, tasks1)) ∧
     (¬ (placeholder dd = Some true ∧ columnContent column = None) →
      ∃ insertionIndex,
        getInsertionIndex dd column = Normal insertionIndex ∧
        handleDrop now e dd tasks
        = (Normal tt, mkDragDrop None None,
           moveTaskToPosition taskId newStatus insertionIndex tasks1))).
Proof.
  split_and!.
  - intros [Hdrag|Hcol]; unfold handleDrop.
    + by rewrite Hdrag.
    + rewrite Hcol. by destruct (draggedElement dd).
  - done.
  - intros card column Hdrag Hcol newStatus taskId tasks1.
    assert (Hupdated : ∀ i task,
              findTask taskId tasks = Some (i, task) →
              mkTask (id task) (title task) (description task) newStatus
                (createdAt task) now ∈ tasks1).
    { intros i task Hfind.
      apply (findTask_updateTaskStatus now _ newStatus) in Hfind.
      apply findTask_Some in Hfind as [Hi _].
      by eapply list_elem_of_lookup_2. }
    assert (Hdrop : handleDrop now e dd tasks
              = match getInsertionIndex dd column with
                | Throw message => (Throw message, dd, tasks1)
                | Normal insertionIndex =>
                    (Normal tt, mkDragDrop None None,
                     moveTaskToPosition taskId newStatus insertionIndex tasks1)
                end).
    { unfold handleDrop. by rewrite Hdrag, Hcol. }
    split_and!.
    + intros i task Hfind. rewrite Hdrop.
      destruct (getInsertionIndex dd column); cbn [snd].
      * rewrite moveTaskToPosition_Permutation. by apply (Hupdated i).
      * by apply (Hupdated i).
    + intros [Hph Hcontent]. rewrite Hdrop. unfold getInsertionIndex.
      by rewrite Hph, Hcontent.
    + intros Hreadable. rewrite Hdrop. unfold getInsertionIndex.
      destruct (placeholder dd) as [[|]|]; [|by eexists..].
      destruct (columnContent column); [by eexists|].
      exfalso. by apply Hreadable.
Qed.

Lemma handleDrop_commit_witness :
  let now := "2024-01-03T00:00:00.000Z" in
  let dd := mkDragDrop (Some "A") (Some true) in
  let tasks := [sampleTask "A" "todo"; sampleTask "B" "done"] in
  let archive := mkColumn (Some "archive") (Some [PlaceholderNode]) in
  let bare := mkColumn (Some "archive") None in
  draggedElement dd = Some "A" ∧
  ¬ (placeholder dd = Some true ∧ columnContent archive = None) ∧
  (∃ insertionIndex,
     getInsertionIndex dd archive = Normal insertionIndex ∧
     handleDrop now (mkDropEvent (Some archive) "A") dd tasks
     = (Normal tt, mkDragDrop None None,
        moveTaskToPosition "A" (Some "archive") insertionIndex
          (updateTaskStatus now "A" (Some "archive") tasks))) ∧
  (placeholder dd = Some true ∧ columnContent bare = None) ∧
  handleDrop now (mkDropEvent (Some bare) "A") dd tasks
  = (Throw "TypeError", dd, updateTaskStatus now "A" (Some "archive") tasks).
Proof.
  intros now dd tasks archive bare.
  assert (Hreadable : ¬ (placeholder dd = Some true
                         ∧ columnContent archive = None)).
  { intros [_ Hcontent]. discriminate Hcontent. }
  assert (Hbare : placeholder dd = Some true ∧ columnContent bare = None).
  { split; reflexivity. }
  split; [reflexivity|]. split; [exact Hreadable|]. split.
  - exact (proj2 (proj2 (proj2 (proj2
             (handleDrop_commit now (mkDropEvent (Some archive) "A") dd tasks))
             "A" archive eq_refl eq_refl)) Hreadable).
  - split; [exact Hbare|].
    exact (proj1 (proj2 (proj2 (proj2
             (handleDrop_commit now (mkDropEvent (Some bare) "A") dd tasks))
             "A" bare eq_refl eq_refl)) Hbare).
Defined.

(** * Further properties of the task store *)

Section store_updates.
Implicit Types (tasks : list Task) (task : Task) (taskId now : string).
Implicit Types (s : option string).

Lemma updateTaskStatus_found now taskId s tasks i task :
  findTask taskId tasks = Some (i, task) →
  updateTaskStatus now taskId s tasks
  = <[i := mkTask (id task) (title task) (description task) s
             (createdAt task) now]> tasks.
Proof. intros Hfind. unfold updateTaskStatus. by rewrite Hfind. Qed.

Lemma updateTaskStatus_missing now taskId s tasks :
  findTask taskId tasks = None → updateTaskStatus now taskId s tasks = tasks.
Proof. intros Hfind. unfold updateTaskStatus. by rewrite Hfind. Qed.

(** A field that [updateTaskStatus] does not assign reads the same along
    the whole list. *)
Lemma updateTaskStatus_field {B} (f : Task → B) now taskId s tasks :
  (∀ task, f (mkTask (id task) (title task) (description task) s
                (createdAt task) now) = f task) →
  f <$> updateTaskStatus now taskId s tasks = f <$> tasks.
Proof.
  intros Hf. destruct (findTask taskId tasks) as [[i task]|] eqn:Hfind.
  - rewrite (updateTaskStatus_found _ _ _ _ _ _ Hfind).
    apply findTask_Some in Hfind as [Hi _].
    rewrite list_fmap_insert, Hf. apply list_insert_id.
    by rewrite list_lookup_fmap, Hi.
  - by rewrite updateTaskStatus_missing.
Qed.

Lemma deleteTask_found taskId tasks i task :
  findTask taskId tasks = Some (i, task) →
  deleteTask taskId tasks = delete i tasks.
Proof. intros Hfind. unfold deleteTask. by rewrite Hfind. Qed.

Lemma unique_id_index tasks i j a b :
  NoDup (id <$> tasks) → tasks !! i = Some a → tasks !! j = Some b →
  id a = id b → i = j.
Proof.
  intros Hnd Hi Hj Hid. apply (NoDup_lookup (id <$> tasks) i j (id a) Hnd).
  - by rewrite list_lookup_fmap, Hi.
  - by rewrite list_lookup_fmap, Hj, Hid.
Qed.
End store_updates.

(** X1: [updateTaskStatus] keeps the number of tasks, their ids in the same
    order, and every title, description and creation stamp; every task
    whose id is not the given one stays, unchanged, at its index. *)
Theorem updateTaskStatus_frame now taskId s tasks :
  length (updateTaskStatus now taskId s tasks) = length tasks ∧
  id <$> updateTaskStatus now taskId s tasks = id <$> tasks ∧
  title <$> updateTaskStatus now taskId s tasks = title <$> tasks ∧
  description <$> updateTaskStatus now taskId s tasks = description <$> tasks ∧
  createdAt <$> updateTaskStatus now taskId s tasks = createdAt <$> tasks ∧
  (∀ j t, tasks !! j = Some t → id t ≠ taskId →
          updateTaskStatus now taskId s tasks !! j = Some t).
Proof.
  split_and!; try (by apply updateTaskStatus_field).
  - rewrite <- (length_fmap id), <- (length_fmap id tasks).
    f_equal. by apply updateTaskStatus_field.
  - intros j t Hj Hid.
    destruct (findTask taskId tasks) as [[i task]|] eqn:Hfind.
    + rewrite (updateTaskStatus_found _ _ _ _ _ _ Hfind).
      apply findTask_Some in Hfind as [Hi Htask].
      rewrite list_lookup_insert_ne; [done|]. intros ->. congruence.
    + by rewrite updateTaskStatus_missing.
Qed.

Lemma updateTaskStatus_frame_witness :
  let tasks := [sampleTask "A" "todo"; sampleTask "B" "done"] in
  let now := "2024-01-03T00:00:00.000Z" in
  tasks !! 0%nat = Some (sampleTask "A" "todo") ∧
  id (sampleTask "A" "todo") ≠ "B" ∧
  updateTaskStatus now "B" (Some "todo") tasks !! 0%nat
  = Some (sampleTask "A" "todo").
Proof.
  intros tasks now.
  assert (Hid : id (sampleTask "A" "todo") ≠ "B") by (vm_compute; discriminate).
  split; [reflexivity|]. split; [exact Hid|].
  pose proof (updateTaskStatus_frame now "B" (Some "todo") tasks)
    as (_ & _ & _ & _ & _ & Hother).
  exact (Hother 0%nat (sampleTask "A" "todo") eq_refl Hid).
Defined.

(** X2: after [updateTaskStatus] with an id of the store, the task found,
    with the new status and time stamp, is in the view of the new status;
    when the ids of the store are pairwise distinct, no view of another
    status holds a task with that id. *)
Theorem updateTaskStatus_views now taskId s tasks i task :
  findTask taskId tasks = Some (i, task) →
  mkTask (id task) (title task) (description task) s (createdAt task) now
  ∈ getTasksByStatus s (updateTaskStatus now taskId s tasks) ∧
  (NoDup (id <$> tasks) →
   ∀ s' t, s' ≠ s →
     t ∈ getTasksByStatus s' (updateTaskStatus now taskId s tasks) →
     id t ≠ taskId).
Proof.
  intros Hfind. rewrite (updateTaskStatus_found _ _ _ _ _ _ Hfind).
  destruct (findTask_Some _ _ _ _ Hfind) as [Hi Htask].
  pose proof (lookup_lt_Some _ _ _ Hi) as Hlt. split.
  - apply list_elem_of_filter. split; [done|]. by apply list_elem_of_insert.
  - intros Hnd s' t Hs' [Hst [j Hj]%list_elem_of_lookup_1]%list_elem_of_filter Hid.
    destruct (decide (j = i)) as [->|Hne].
    + rewrite list_lookup_insert_eq in Hj by done.
      injection Hj as <-. by apply Hs'.
    + rewrite list_lookup_insert_ne in Hj by done.
      apply Hne. apply (unique_id_index tasks j i t task Hnd Hj Hi). congruence.
Qed.

Lemma updateTaskStatus_views_witness :
  let tasks := [sampleTask "A" "todo"; sampleTask "B" "done"] in
  let now := "2024-01-03T00:00:00.000Z" in
  findTask "B" tasks = Some (1%nat, sampleTask "B" "done") ∧
  NoDup (id <$> tasks) ∧
  (mkTask "B" "B" "" (Some "todo") "2024-01-01T00:00:00.000Z" now
   ∈ getTasksByStatus (Some "todo") (updateTaskStatus now "B" (Some "todo") tasks)) ∧
  ∀ t, t ∈ getTasksByStatus (Some "done")
             (updateTaskStatus now "B" (Some "todo") tasks) →
       id t ≠ "B".
Proof.
  intros tasks now.
  assert (Hnd : NoDup (id <$> tasks)).
  { apply (bool_decide_unpack _). vm_compute. exact I. }
  assert (Hne : Some "done" ≠ Some "todo") by discriminate.
  pose proof (updateTaskStatus_views now "B" (Some "todo") tasks 1
                (sampleTask "B" "done") eq_refl) as [Hin Hout].
  split; [reflexivity|]. split; [exact Hnd|]. split; [exact Hin|].
  intros t Ht. exact (Hout Hnd (Some "done") t Hne Ht).
Defined.

(** X3: [deleteTask] with an id of the store removes the first task that
    carries it and nothing else: the other tasks stay in their order and
    the list is one shorter; when the ids are pairwise distinct the id is
    gone afterwards, and a second [deleteTask] changes nothing. *)
Theorem deleteTask_present taskId tasks i task :
  findTask taskId tasks = Some (i, task) →
  deleteTask taskId tasks = take i tasks ++ drop (S i) tasks ∧
  tasks = take i tasks ++ task :: drop (S i) tasks ∧
  S (length (deleteTask taskId tasks)) = length tasks ∧
  (NoDup (id <$> tasks) →
   (taskId ∉ (id <$> deleteTask taskId tasks)) ∧
   deleteTask taskId (deleteTask taskId tasks) = deleteTask taskId tasks).
Proof.
  intros Hfind. rewrite (deleteTask_found _ _ _ _ Hfind).
  destruct (findTask_Some _ _ _ _ Hfind) as [Hi Htask].
  pose proof (lookup_lt_Some _ _ _ Hi) as Hlt. split_and!.
  - apply delete_take_drop.
  - by rewrite take_drop_middle.
  - rewrite length_delete by eauto. lia.
  - intros Hnd.
    assert (Hgone : taskId ∉ (id <$> delete i tasks)).
    { intros (t & Hid & Ht)%list_elem_of_fmap.
      pose proof (NoDup_ids_delete tasks i task Hnd Hi) as Hrest.
      apply (proj1 (Forall_forall _ _) Hrest t Ht). congruence. }
    split; [exact Hgone|].
    apply findTask_None in Hgone. unfold deleteTask at 1. by rewrite Hgone.
Qed.

Lemma deleteTask_present_witness :
  let tasks := [sampleTask "A" "todo"; sampleTask "B" "done"; sampleTask "C" "todo"] in
  findTask "B" tasks = Some (1%nat, sampleTask "B" "done") ∧
  NoDup (id <$> tasks) ∧
  deleteTask "B" tasks = take 1 tasks ++ drop 2 tasks ∧
  deleteTask "B" (deleteTask "B" tasks) = deleteTask "B" tasks.
Proof.
  intros tasks.
  assert (Hnd : NoDup (id <$> tasks)).
  { apply (bool_decide_unpack _). vm_compute. exact I. }
  pose proof (deleteTask_present "B" tasks 1 (sampleTask "B" "done") eq_refl)
    as (Hshape & _ & _ & Hunique).
  split; [reflexivity|]. split; [exact Hnd|]. split; [exact Hshape|].
  exact (proj2 (Hunique Hnd)).
Defined.

(** X4: pairwise distinct ids stay pairwise distinct under every operation
    of the store, provided the id that [generateUniqueId] hands to
    [createTask] is not yet in the store. *)
Theorem exec_keeps_ids_distinct op tasks :
  NoDup (id <$> tasks) →
  (∀ env title0 description0,
     op = OpCreate env title0 description0 → uniqueId env ∉ (id <$> tasks)) →
  NoDup (id <$> (exec op tasks).2).
Proof.
  intros Hnd Hfresh.
  destruct op as [env title0 description0|now taskId newStatus
                 |taskId s position|taskId]; cbn [exec].
  - unfold createTask. case_decide; [done|]. cbn [snd].
    rewrite fmap_app. apply NoDup_app. split_and!; [done| |].
    + intros x Hx [->|[]%elem_of_nil]%elem_of_cons.
      by apply (Hfresh env title0 description0).
    + apply NoDup_singleton.
  - cbn [snd]. by rewrite (updateTaskStatus_field id).
  - cbn [snd]. by rewrite moveTaskToPosition_Permutation.
  - cbn [snd]. unfold deleteTask.
    destruct (findTask taskId tasks) as [[i task]|]; [|done].
    rewrite list_fmap_delete. eapply sublist_NoDup; [exact Hnd|].
    apply sublist_delete.
Qed.

Lemma exec_keeps_ids_distinct_witness :
  let tasks := [sampleTask "A" "todo"; sampleTask "B" "done"] in
  let op := OpCreate sampleEnv "Write report" "" in
  NoDup (id <$> tasks) ∧
  (uniqueId sampleEnv ∉ (id <$> tasks)) ∧
  NoDup (id <$> (exec op tasks).2).
Proof.
  intros tasks op.
  assert (Hnd : NoDup (id <$> tasks)).
  { apply (bool_decide_unpack _). vm_compute. exact I. }
  assert (Hfresh : uniqueId sampleEnv ∉ (id <$> tasks)).
  { apply (bool_decide_unpack _). vm_compute. exact I. }
  split; [exact Hnd|]. split; [exact Hfresh|].
  apply (exec_keeps_ids_distinct op tasks Hnd).
  intros env title0 description0 Hop. injection Hop as <- _ _. exact Hfresh.
Defined.

(** X5: [createTask] lengthens the list by one when it returns and leaves
    its length when it throws; [updateTaskStatus] and [moveTaskToPosition]
    never change the number of tasks; [deleteTask] removes one task when
    the id is in the store and none otherwise. *)
Theorem getTotalTaskCount_exec tasks :
  (∀ env title0 description0,
     getTotalTaskCount (exec (OpCreate env title0 description0) tasks).2
     = if decide (trim title0 = "") then getTotalTaskCount tasks
       else S (getTotalTaskCount tasks)) ∧
  (∀ now taskId s,
     getTotalTaskCount (exec (OpUpdateStatus now taskId s) tasks).2
     = getTotalTaskCount tasks) ∧
  (∀ taskId s position,
     getTotalTaskCount (exec (OpMoveToPosition taskId s position) tasks).2
     = getTotalTaskCount tasks) ∧
  (∀ taskId,
     getTotalTaskCount (exec (OpDelete taskId) tasks).2
     = if decide (taskId ∈ id <$> tasks) then pred (getTotalTaskCount tasks)
       else getTotalTaskCount tasks).
Proof.
  unfold getTotalTaskCount. split_and!.
  - intros env title0 description0. cbn [exec]. unfold createTask.
    case_decide; [done|]. cbn [snd]. rewrite length_app. cbn. lia.
  - intros now taskId s. cbn [exec snd].
    rewrite <- (length_fmap id), (updateTaskStatus_field id) by done.
    apply length_fmap.
  - intros taskId s position. cbn [exec snd].
    by rewrite moveTaskToPosition_Permutation.
  - intros taskId. cbn [exec snd]. unfold deleteTask.
    destruct (findTask taskId tasks) as [[i task]|] eqn:Hfind.
    + destruct (findTask_Some _ _ _ _ Hfind) as [Hi Htask].
      rewrite decide_True.
      * rewrite length_delete by eauto. lia.
      * apply list_elem_of_fmap. exists task. split; [done|].
        by eapply list_elem_of_lookup_2.
    + apply findTask_None in Hfind. by rewrite decide_False.
Qed.

(** ** Views, counts and empty-state messages *)

Lemma filter_length_zero {A} (P : A → Prop) `{!∀ x, Decision (P x)} (l : list A) :
  length (filter P l) = 0%nat ↔ ¬ Exists P l.
Proof.
  induction l as [|x l IH].
  - split; [by intros _ ?%Exists_nil|done].
  - destruct (decide (P x)) as [Hx|Hx].
    + rewrite filter_cons_True by done. split; [done|].
      intros Hnone. exfalso. apply Hnone. by left.
    + rewrite filter_cons_False by done. rewrite IH.
      split; [|by intros Hnone ?; apply Hnone; right].
      intros Hnone [?|?]%Exists_cons; done.
Qed.

Lemma codeStatuses_cases (s : option string) :
  s ∈ codeStatuses
  ↔ s = Some "todo" ∨ s = Some "inprogress" ∨ s = Some "done".
Proof.
  unfold codeStatuses. rewrite !elem_of_cons.
  split; [|tauto]. intros [?|[?|[?|[]%elem_of_nil]]]; tauto.
Qed.

(** X6: the three numbers that [updateTaskCounts] writes to the column
    headers, together with the number of tasks whose status is none of
    [todo], [inprogress], [done], add up to the total number of tasks; so
    they add up to the total exactly when every status is one of these
    three, and a task with another status is counted in no header. *)
Theorem updateTaskCounts_total tasks :
  let counts := updateTaskCounts tasks in
  let unknown := filter (λ t, status t ∉ codeStatuses) tasks in
  (count_todo counts + count_inprogress counts + count_done counts
   + length unknown = getTotalTaskCount tasks)%nat ∧
  ((count_todo counts + count_inprogress counts + count_done counts
    = getTotalTaskCount tasks)%nat
   ↔ Forall (λ t, status t ∈ codeStatuses) tasks).
Proof.
  cbn zeta. unfold updateTaskCounts, getTotalTaskCount. cbn [count_todo count_inprogress count_done].
  assert (Hsum : (length (filter (λ t, status t = Some "todo") tasks)
            + length (filter (λ t, status t = Some "inprogress") tasks)
            + length (filter (λ t, status t = Some "done") tasks)
            + length (filter (λ t, status t ∉ codeStatuses) tasks)
            = length tasks)%nat).
  { induction tasks as [|t tasks IH]; [done|].
    rewrite !filter_cons.
    repeat case_decide; cbn [length]; try lia; exfalso;
      repeat match goal with
             | H : context [_ ∈ codeStatuses] |- _ =>
                 rewrite codeStatuses_cases in H
             end; intuition congruence. }
  split; [exact Hsum|]. split.
  - intros Hall. apply Forall_forall. intros t Ht.
    destruct (decide (status t ∈ codeStatuses)) as [|Hout]; [done|].
    assert (t ∈ filter (λ t, status t ∉ codeStatuses) tasks) as Hin
      by (by apply list_elem_of_filter).
    destruct (filter (λ t, status t ∉ codeStatuses) tasks);
      [by apply elem_of_nil in Hin|]. cbn [length] in Hsum. lia.
  - intros Hall.
    rewrite (filter_drops_all (λ t, status t ∉ codeStatuses)) in Hsum.
    + cbn [length] in Hsum. lia.
    + eapply Forall_impl; [exact Hall|]. intros t Hin Hout. by apply Hout.
Qed.

(** X7: [addEmptyStateMessages] puts the empty-state message in a column
    exactly when the column exists and the number that [updateTaskCounts]
    shows in its header is zero. *)
Theorem addEmptyStateMessages_zero_count columnExists tasks :
  let messages := addEmptyStateMessages columnExists tasks in
  let counts := updateTaskCounts tasks in
  ("todoColumn" ∈ messages
   ↔ columnExists "todoColumn" = true ∧ count_todo counts = 0%nat) ∧
  ("inprogressColumn" ∈ messages
   ↔ columnExists "inprogressColumn" = true ∧ count_inprogress counts = 0%nat) ∧
  ("doneColumn" ∈ messages
   ↔ columnExists "doneColumn" = true ∧ count_done counts = 0%nat).
Proof.
  cbn zeta. unfold addEmptyStateMessages, columnMappings, updateTaskCounts.
  cbn [count_todo count_inprogress count_done omap list_omap].
  pose proof (filter_length_zero (λ t, status t = Some "todo") tasks) as H1.
  pose proof (filter_length_zero (λ t, status t = Some "inprogress") tasks) as H2.
  pose proof (filter_length_zero (λ t, status t = Some "done") tasks) as H3.
  destruct (columnExists "todoColumn"), (columnExists "inprogressColumn"),
    (columnExists "doneColumn");
    repeat case_decide; cbn [omap list_omap option_bind mbind];
    rewrite ?elem_of_cons, ?elem_of_nil;
    intuition (try discriminate; try lia).
Qed.

(** X8: every view [getTasksByStatus] lists tasks of the store in the order
    of the store; views of two different statuses share no task; and when
    every status is one of [todo], [inprogress], [done], the three views
    together hold every task of the store exactly once. *)
Theorem getTasksByStatus_partition tasks :
  (∀ s, getTasksByStatus s tasks `sublist_of` tasks) ∧
  (∀ s s' t, s ≠ s' → t ∈ getTasksByStatus s tasks →
             t ∉ getTasksByStatus s' tasks) ∧
  (Forall (λ t, status t ∈ codeStatuses) tasks →
   getTasksByStatus (Some "todo") tasks
   ++ getTasksByStatus (Some "inprogress") tasks
   ++ getTasksByStatus (Some "done") tasks ≡ₚ tasks).
Proof.
  unfold getTasksByStatus. split_and!.
  - intros s. apply sublist_filter.
  - intros s s' t Hne [Hs _]%list_elem_of_filter [Hs' _]%list_elem_of_filter.
    congruence.
  - induction 1 as [|t tasks Hknown _ IH]; [done|].
    apply codeStatuses_cases in Hknown as [Hs|[Hs|Hs]].
    + rewrite (filter_cons_True (λ t, status t = Some "todo")) by done.
      rewrite !filter_cons_False by congruence.
      cbn [app]. by constructor.
    + rewrite (filter_cons_True (λ t, status t = Some "inprogress")) by done.
      rewrite !filter_cons_False by congruence.
      cbn [app]. rewrite <- Permutation_middle. by constructor.
    + rewrite (filter_cons_True (λ t, status t = Some "done")) by done.
      rewrite !filter_cons_False by congruence.
      rewrite app_assoc, <- Permutation_middle, <- app_assoc. by constructor.
Qed.

Lemma getTasksByStatus_partition_witness :
  let tasks := [sampleTask "A" "todo"; sampleTask "B" "done"; sampleTask "C" "todo"] in
  Forall (λ t, status t ∈ codeStatuses) tasks ∧
  getTasksByStatus (Some "todo") tasks
  ++ getTasksByStatus (Some "inprogress") tasks
  ++ getTasksByStatus (Some "done") tasks ≡ₚ tasks.
Proof.
  intros tasks.
  assert (Hknown : Forall (λ t, status t ∈ codeStatuses) tasks).
  { apply (bool_decide_unpack _). vm_compute. exact I. }
  split; [exact Hknown|].
  exact (proj2 (proj2 (getTasksByStatus_partition tasks)) Hknown).
Defined.

(** * Strings *)

Section string_facts.
Implicit Types (s p sub a b : string) (c : ascii).

Lemma startsWith_spec s p : startsWith s p = true ↔ ∃ b, s = p +:+ b.
Proof.
  revert s. induction p as [|x p IH]; intros s.
  - split; [|by destruct s]. intros _. by exists s.
  - destruct s as [|y s]; cbn [startsWith String.append].
    + split; [done|]. by intros [b Hb].
    + destruct (Ascii.eqb x y) eqn:Hxy.
      * apply Ascii.eqb_eq in Hxy as ->. rewrite IH.
        split; intros [b Hb]; exists b.
        -- by rewrite Hb.
        -- by injection Hb.
      * apply Ascii.eqb_neq in Hxy. split; [done|].
        intros [b Hb]. injection Hb as Hyx _. exfalso. by apply Hxy.
Qed.

Lemma includes_startsWith s sub :
  startsWith s sub = true → includes s sub = true.
Proof.
  intros Hstart. destruct s as [|y s].
  - by destruct sub.
  - change (includes (String y s) sub)
      with (startsWith (String y s) sub || includes s sub).
    by rewrite Hstart.
Qed.

Lemma includes_spec s sub :
  includes s sub = true ↔ ∃ a b, s = a +:+ sub +:+ b.
Proof.
  split.
  - induction s as [|y s IH]; cbn [includes];
      intros [Hstart|Hrest]%orb_true_iff; try done.
    + apply startsWith_spec in Hstart as [b Hb]. by exists "", b.
    + apply startsWith_spec in Hstart as [b Hb]. by exists "", b.
    + destruct (IH Hrest) as (a & b & ->). by exists (String y a), b.
  - intros (a & b & ->). induction a as [|y a IH].
    + cbn [String.append].
      assert (startsWith (sub +:+ b) sub = true) as Hstart
        by (apply startsWith_spec; by exists b).
      by apply includes_startsWith.
    + change (includes (String y (a +:+ sub +:+ b)) sub = true).
      change (startsWith (String y (a +:+ sub +:+ b)) sub
              || includes (a +:+ sub +:+ b) sub = true).
      rewrite IH. apply orb_true_r.
Qed.

Lemma append_cons c a b : String c a +:+ b = String c (a +:+ b).
Proof. reflexivity. Qed.

Lemma append_empty_r s : s +:+ "" = s.
Proof. induction s as [|y s IH]; [done|]. by rewrite append_cons, IH. Qed.

Lemma includes_self s : includes s s = true.
Proof.
  apply includes_startsWith, startsWith_spec. exists "".
  by rewrite append_empty_r.
Qed.

Lemma isWhiteSpace_lowerChar c : isWhiteSpace (lowerChar c) = isWhiteSpace c.
Proof.
  destruct c as [[] [] [] [] [] [] [] []]; vm_compute; reflexivity.
Qed.

Lemma lowerChar_idempotent c : lowerChar (lowerChar c) = lowerChar c.
Proof.
  destruct c as [[] [] [] [] [] [] [] []]; vm_compute; reflexivity.
Qed.

Lemma toLowerCase_idempotent s : toLowerCase (toLowerCase s) = toLowerCase s.
Proof.
  induction s as [|c s IH]; [done|].
  cbn [toLowerCase]. by rewrite lowerChar_idempotent, IH.
Qed.

Lemma allWhiteSpace_toLowerCase s :
  allWhiteSpace (toLowerCase s) = allWhiteSpace s.
Proof.
  induction s as [|c s IH]; [done|].
  cbn [toLowerCase allWhiteSpace]. by rewrite isWhiteSpace_lowerChar, IH.
Qed.

Lemma trimStart_headKept s : headKept (trimStart s).
Proof.
  induction s as [|c s IH]; [done|].
  cbn [trimStart]. by destruct (isWhiteSpace c) eqn:Hc.
Qed.

Lemma trimStart_fixed s : headKept s → trimStart s = s.
Proof. destruct s as [|c s]; [done|]. cbn. by intros ->. Qed.

Lemma trimEnd_headKept s : headKept s → headKept (trimEnd s).
Proof.
  destruct s as [|c s]; [done|]. cbn [headKept trimEnd]. intros Hc.
  destruct (trimEnd s); [by rewrite Hc|done].
Qed.

Lemma trimEnd_cons c s :
  trimEnd (String c s)
  = match trimEnd s with
    | EmptyString =>
        if isWhiteSpace c then EmptyString else String c EmptyString
    | String c' kept => String c (String c' kept)
    end.
Proof. reflexivity. Qed.

Lemma trimEnd_idempotent s : trimEnd (trimEnd s) = trimEnd s.
Proof.
  induction s as [|c s IH]; [done|]. rewrite (trimEnd_cons c s).
  destruct (trimEnd s) as [|c' kept] eqn:Hkept.
  - destruct (isWhiteSpace c) eqn:Hc; [done|].
    rewrite trimEnd_cons. cbn [trimEnd]. by rewrite Hc.
  - rewrite trimEnd_cons. by rewrite IH.
Qed.

Lemma trim_idempotent s : trim (trim s) = trim s.
Proof.
  unfold trim. rewrite (trimStart_fixed (trimEnd (trimStart s))).
  - apply trimEnd_idempotent.
  - apply trimEnd_headKept, trimStart_headKept.
Qed.

Lemma trimStart_length s : (String.length (trimStart s) ≤ String.length s)%nat.
Proof.
  induction s as [|c s IH]; [done|]. cbn [trimStart].
  destruct (isWhiteSpace c); cbn [String.length]; lia.
Qed.

Lemma trimEnd_length s : (String.length (trimEnd s) ≤ String.length s)%nat.
Proof.
  induction s as [|c s IH]; [done|]. cbn [trimEnd].
  destruct (trimEnd s); [destruct (isWhiteSpace c)|]; cbn [String.length] in *; lia.
Qed.

Lemma trim_length s : (String.length (trim s) ≤ String.length s)%nat.
Proof.
  unfold trim. etrans; [apply trimEnd_length|apply trimStart_length].
Qed.

Lemma substring_0_length n s :
  String.length (substring 0 n s) = Nat.min n (String.length s).
Proof.
  revert s. induction n as [|n IH]; intros [|c s]; cbn; try done.
  by rewrite IH.
Qed.

Lemma substring_0_prefix n s : ∃ rest, s = substring 0 n s +:+ rest.
Proof.
  revert s. induction n as [|n IH]; intros [|c s]; cbn.
  - by exists "".
  - by exists (String c s).
  - by exists "".
  - destruct (IH s) as [rest Hrest]. exists rest.
    by rewrite append_cons, <- Hrest.
Qed.

Lemma append_length a b :
  String.length (a +:+ b) = (String.length a + String.length b)%nat.
Proof.
  induction a as [|c a IH]; [done|].
  rewrite append_cons. cbn [String.length]. by rewrite IH.
Qed.
End string_facts.

(** * Search *)

(** X9: [searchTasks] returns the whole list for a query that is empty
    after trimming; for any other query it returns, in the order of the
    store, exactly the tasks whose title or description, in lower case,
    contains the query, untrimmed and in lower case, as a substring. *)
Theorem searchTasks_spec query tasks :
  (trim query = "" → searchTasks query tasks = tasks) ∧
  (trim query ≠ "" →
   searchTasks query tasks `sublist_of` tasks ∧
   ∀ t, t ∈ searchTasks query tasks
        ↔ t ∈ tasks ∧
          ((∃ a b, toLowerCase (title t) = a +:+ toLowerCase query +:+ b) ∨
           (∃ a b, toLowerCase (description t)
                   = a +:+ toLowerCase query +:+ b))).
Proof.
  unfold searchTasks. split.
  - intros Hblank. by rewrite decide_True.
  - intros Hquery. rewrite decide_False by done. cbn zeta. split.
    + apply sublist_filter.
    + intros t. rewrite list_elem_of_filter, orb_True, !Is_true_true.
      rewrite !includes_spec. tauto.
Qed.

Lemma searchTasks_spec_witness :
  let tasks := [mkTask "1" "Write Report" "" (Some "todo") "" "";
                mkTask "2" "Call Bob" "about the report" (Some "done") "" "";
                mkTask "3" "Lunch" "" (Some "todo") "" ""] in
  trim "" = "" ∧ searchTasks "" tasks = tasks ∧
  trim "REPORT" ≠ "" ∧ searchTasks "REPORT" tasks `sublist_of` tasks.
Proof.
  intros tasks.
  assert (Hquery : trim "REPORT" ≠ "") by (vm_compute; discriminate).
  split; [reflexivity|]. split.
  - exact (proj1 (searchTasks_spec "" tasks) eq_refl).
  - split; [exact Hquery|].
    exact (proj1 (proj2 (searchTasks_spec "REPORT" tasks) Hquery)).
Defined.

(** X10: [searchTasks] does not depend on the case of the query: two
    queries with the same lower-case form return the same tasks; in
    particular a query and its lower-case form do. *)
Theorem searchTasks_case_insensitive q1 q2 tasks :
  toLowerCase q1 = toLowerCase q2 →
  searchTasks q1 tasks = searchTasks q2 tasks ∧
  searchTasks (toLowerCase q1) tasks = searchTasks q1 tasks.
Proof.
  assert (Hsame : ∀ a b, toLowerCase a = toLowerCase b →
                         searchTasks a tasks = searchTasks b tasks).
  { intros a b Hab. unfold searchTasks.
    assert (trim a = "" ↔ trim b = "") as Hblank.
    { rewrite !trim_empty, <- (allWhiteSpace_toLowerCase a),
        <- (allWhiteSpace_toLowerCase b). by rewrite Hab. }
    destruct (decide (trim a = "")) as [Ha|Ha].
    - by rewrite decide_True by tauto.
    - rewrite decide_False by tauto. cbn zeta. by rewrite Hab. }
  intros Hq. split; [by apply Hsame|].
  apply Hsame, toLowerCase_idempotent.
Qed.

Lemma searchTasks_case_insensitive_witness :
  let tasks := [mkTask "1" "Write Report" "" (Some "todo") "" "";
                mkTask "2" "Lunch" "" (Some "todo") "" ""] in
  toLowerCase "RePort" = toLowerCase "REPORT" ∧
  searchTasks "RePort" tasks = searchTasks "REPORT" tasks.
Proof.
  intros tasks. split; [reflexivity|].
  exact (proj1 (searchTasks_case_insensitive "RePort" "REPORT" tasks eq_refl)).
Defined.

(** * The texts of a task card *)

Lemma substring_0_0 (s : string) : substring 0 0 s = "".
Proof. by destruct s. Qed.

(** X11: [truncateText] returns a text of at most [maxLength] characters
    unchanged; a longer text is cut to its first
    [maxLength - suffix.length] characters followed by the suffix, which
    makes exactly [maxLength] characters when the suffix is not longer
    than [maxLength]; when the suffix is longer than [maxLength] the result
    is the suffix alone, longer than [maxLength]. *)
Theorem truncateText_length text maxLength suffix :
  (Z.of_nat (String.length text) <= maxLength →
   truncateText text maxLength suffix = text) ∧
  (maxLength < Z.of_nat (String.length text) →
   Z.of_nat (String.length suffix) <= maxLength →
   Z.of_nat (String.length (truncateText text maxLength suffix)) = maxLength ∧
   ∃ kept rest, truncateText text maxLength suffix = kept +:+ suffix ∧
                text = kept +:+ rest) ∧
  (maxLength < Z.of_nat (String.length text) →
   maxLength < Z.of_nat (String.length suffix) →
   truncateText text maxLength suffix = suffix).
Proof.
  unfold truncateText. split_and!.
  - intros Hshort. by rewrite decide_True.
  - intros Hlong Hsuffix. rewrite decide_False by lia. split.
    + rewrite append_length, substring_0_length. lia.
    + destruct (substring_0_prefix
                  (Z.to_nat (maxLength - Z.of_nat (String.length suffix))) text)
        as [rest Hrest].
      by eexists _, rest.
  - intros Hlong Hsuffix. rewrite decide_False by lia.
    replace (Z.to_nat (maxLength - Z.of_nat (String.length suffix))) with 0%nat
      by lia.
    by rewrite substring_0_0.
Qed.

Lemma truncateText_length_witness :
  let text := "Prepare the quarterly report" in
  10 < Z.of_nat (String.length text) ∧
  Z.of_nat (String.length "...") <= 10 ∧
  Z.of_nat (String.length (truncateText text 10 "...")) = 10 ∧
  2 < Z.of_nat (String.length "...") ∧
  truncateText text 2 "..." = "...".
Proof.
  intros text.
  assert (H1 : 10 < Z.of_nat (String.length text)) by (vm_compute; reflexivity).
  assert (H2 : Z.of_nat (String.length "...") <= 10) by (vm_compute; discriminate).
  assert (H3 : 2 < Z.of_nat (String.length text)) by (vm_compute; reflexivity).
  assert (H4 : 2 < Z.of_nat (String.length "...")) by (vm_compute; reflexivity).
  split; [exact H1|]. split; [exact H2|]. split.
  - exact (proj1 (proj1 (proj2 (truncateText_length text 10 "...")) H1 H2)).
  - split; [exact H4|].
    exact (proj2 (proj2 (truncateText_length text 2 "...")) H3 H4).
Defined.

Lemma splitOn_cons sep c (rest : string) :
  splitOn sep (String c rest)
  = if Ascii.eqb c sep then EmptyString :: splitOn sep rest
    else match splitOn sep rest with
         | piece :: pieces => String c piece :: pieces
         | [] => [String c EmptyString]
         end.
Proof. reflexivity. Qed.

Lemma splitOn_first sep (p rest : string) :
  includes p (String sep "") = false →
  splitOn sep (p +:+ String sep rest) = p :: splitOn sep rest.
Proof.
  induction p as [|c p IH]; intros Hfree.
  - change ("" +:+ String sep rest) with (String sep rest).
    by rewrite splitOn_cons, Ascii.eqb_refl.
  - change (startsWith (String c p) (String sep "") || includes p (String sep "")
            = false) in Hfree.
    apply orb_false_iff in Hfree as [Hstart Hrest].
    assert (Ascii.eqb c sep = false) as Hc.
    { rewrite Ascii.eqb_sym. destruct (Ascii.eqb sep c) eqn:Heq; [|done].
      cbn [startsWith] in Hstart. rewrite Heq in Hstart. by destruct p. }
    by rewrite append_cons, splitOn_cons, Hc, (IH Hrest).
Qed.

(** X12: on the card built by [createTaskElement] the title shown has at
    most 60 characters, the description shown is never empty, and for an
    id made by [generateUniqueId], with a prefix and a time stamp free of
    underscores and a time stamp that is not empty, the id shown is [#]
    followed by the time stamp alone, so that it does not depend on the
    random part of the id. *)
Theorem createTaskElement_texts task :
  (String.length (titleText (createTaskElement task)) ≤ 60)%nat ∧
  descriptionText (createTaskElement task) ≠ "" ∧
  (∀ prefix dateNow random,
     id task = generateUniqueId prefix dateNow random →
     includes prefix "_" = false → includes dateNow "_" = false →
     dateNow ≠ "" →
     taskIdText (createTaskElement task) = String "#" dateNow).
Proof.
  unfold createTaskElement. cbn [titleText descriptionText taskIdText].
  split_and!.
  - unfold truncateText. case_decide as Hshort; [lia|].
    rewrite append_length, substring_0_length. cbn. lia.
  - by case_decide.
  - intros prefix dateNow random Hid Hprefix Hdate Hne.
    rewrite Hid. unfold generateUniqueId.
    rewrite (splitOn_first "_" prefix _ Hprefix).
    rewrite (splitOn_first "_" dateNow _ Hdate).
    cbn [lookup list_lookup]. by rewrite decide_False.
Qed.

Lemma createTaskElement_texts_witness :
  let task := sampleTask (generateUniqueId "task" "1700000000000" "abc1234") "todo" in
  id task = generateUniqueId "task" "1700000000000" "abc1234" ∧
  includes "task" "_" = false ∧ includes "1700000000000" "_" = false ∧
  "1700000000000" ≠ "" ∧
  taskIdText (createTaskElement task) = "#1700000000000".
Proof.
  intros task.
  assert (Hne : "1700000000000" ≠ "") by discriminate.
  split; [reflexivity|]. split; [reflexivity|]. split; [reflexivity|].
  split; [exact Hne|].
  exact (proj2 (proj2 (createTaskElement_texts task)) "task" "1700000000000"
           "abc1234" eq_refl eq_refl eq_refl Hne).
Defined.

(** * The task form *)

(** X13: [handleFormSubmission] either shows a field error and leaves the
    task list as it is, or creates one task, appended at the end, whose
    title and description are the trimmed field values, with a title of 1
    to 100 characters and a description of at most 500; the error that
    [createTask] can throw never reaches the form. *)
Theorem handleFormSubmission_outcome env titleValue descriptionValue tasks :
  match handleFormSubmission env titleValue descriptionValue tasks with
  | (Created task, tasks') =>
      tasks' = tasks ++ [task] ∧
      task = mkTask (uniqueId env) (trim titleValue) (trim descriptionValue)
               (Some "todo") (createdNow env) (updatedNow env) ∧
      (1 ≤ String.length (title task))%nat ∧
      (String.length (title task) ≤ 100)%nat ∧
      (String.length (description task) ≤ 500)%nat
  | (TitleError message, tasks') =>
      tasks' = tasks ∧
      (message = "Task title is required" ∧ trim titleValue = "" ∨
       message = "Task title must be 100 characters or less" ∧
       (100 < String.length (trim titleValue))%nat)
  | (DescriptionError message, tasks') =>
      tasks' = tasks ∧
      message = "Description must be 500 characters or less" ∧
      (500 < String.length (trim descriptionValue))%nat
  end.
Proof.
  unfold handleFormSubmission. cbn zeta.
  destruct (decide (trim titleValue = "")) as [Hempty|Hne]; [by auto|].
  destruct (decide (100 < String.length (trim titleValue))%nat) as [Hlong|Hshort];
    [by auto|].
  destruct (decide (500 < String.length (trim descriptionValue))%nat)
    as [Hdlong|Hdshort]; [by auto|].
  unfold createTask. rewrite !trim_idempotent, decide_False by done.
  cbn [title description]. split_and!; try done; try lia.
  destruct (trim titleValue); [done|cbn [String.length]; lia].
Qed.

(** X14: a title field that the check made while typing accepts, having
    at most 100 characters, is never refused for its length on
    submission, as trimming does not lengthen a string. *)
Theorem handleTitleValidation_submission env value descriptionValue tasks :
  handleTitleValidation value = None →
  (String.length (trim value) ≤ 100)%nat ∧
  (handleFormSubmission env value descriptionValue tasks).1
  ≠ TitleError "Task title must be 100 characters or less".
Proof.
  unfold handleTitleValidation. case_decide as Hlen; [done|]. intros _.
  pose proof (trim_length value) as Htrim.
  split; [lia|]. unfold handleFormSubmission. cbn zeta.
  destruct (decide (trim value = "")); [done|].
  rewrite decide_False by lia.
  destruct (decide (500 < String.length (trim descriptionValue))%nat); [done|].
  unfold createTask. by case_decide.
Qed.

Lemma handleTitleValidation_submission_witness :
  handleTitleValidation "  Write report  " = None ∧
  (handleFormSubmission sampleEnv "  Write report  " "" []).1
  ≠ TitleError "Task title must be 100 characters or less".
Proof.
  split; [reflexivity|].
  exact (proj2 (handleTitleValidation_submission sampleEnv "  Write report  "
                  "" [] eq_refl)).
Defined.

(** X15: [handleTextareaResize] sets a height between 60 and 200 pixels,
    equal to the height of the content when that lies in this range, and
    turns the scroll bar on exactly when the content is higher than the
    height it sets. *)
Theorem handleTextareaResize_clamp scrollHeight :
  60 <= (handleTextareaResize scrollHeight).1 <= 200 ∧
  (60 <= scrollHeight <= 200 →
   (handleTextareaResize scrollHeight).1 = scrollHeight) ∧
  ((handleTextareaResize scrollHeight).2 = true
   ↔ (handleTextareaResize scrollHeight).1 < scrollHeight).
Proof.
  unfold handleTextareaResize. cbn [fst snd]. split_and!; [lia..| |].
  - lia.
  - rewrite bool_decide_eq_true. lia.
Qed.

Lemma handleTextareaResize_clamp_witness :
  60 <= 120 <= 200 ∧ (handleTextareaResize 120).1 = 120.
Proof.
  assert (Hrange : 60 <= 120 <= 200) by lia.
  split; [exact Hrange|].
  exact (proj1 (proj2 (handleTextareaResize_clamp 120)) Hrange).
Defined.

(** * Further properties of the drag-and-drop engine *)

Section drop_facts.
Implicit Types (tasks : list Task) (task : Task) (tid now : string).
Implicit Types (s : option string) (idx : Z).

Lemma delete_insert_same {A} (l : list A) (i : nat) (x : A) :
  delete i (<[i:=x]> l) = delete i l.
Proof.
  rewrite !delete_take_drop, take_insert_ge, drop_insert_lt by lia. done.
Qed.

(** The list after [updateTaskStatus] followed by [moveTaskToPosition],
    as [handleDrop] calls them. *)
Lemma update_then_move now tid s idx tasks i task :
  findTask tid tasks = Some (i, task) →
  let statusTasks := getTasksByStatus s (delete i tasks) in
  let otherTasks := filter (λ t, status t ≠ s) (delete i tasks) in
  let k := clampIndex idx (length statusTasks) in
  let task' := mkTask (id task) (title task) (description task) s
                 (createdAt task) now in
  moveTaskToPosition tid s idx (updateTaskStatus now tid s tasks)
  = otherTasks ++ take k statusTasks ++ task' :: drop k statusTasks.
Proof.
  intros Hfind. cbn zeta.
  rewrite (moveTaskToPosition_found _ _ _ _ _ _
             (findTask_updateTaskStatus now _ s _ _ _ Hfind)).
  cbn zeta. rewrite (updateTaskStatus_found _ _ _ _ _ _ Hfind).
  by rewrite delete_insert_same.
Qed.

Lemma getTasksByStatus_rebuilt s s' (otherTasks statusTasks : list Task) task' k :
  Forall (λ t, status t ≠ s) otherTasks →
  Forall (λ t, status t = s) statusTasks →
  status task' = s →
  getTasksByStatus s'
    (otherTasks ++ take k statusTasks ++ task' :: drop k statusTasks)
  = if decide (s' = s) then take k statusTasks ++ task' :: drop k statusTasks
    else getTasksByStatus s' otherTasks.
Proof.
  intros Hother Hstatus Htask. unfold getTasksByStatus.
  rewrite !filter_app. destruct (decide (s' = s)) as [->|Hs].
  - rewrite filter_cons_True by done.
    rewrite (filter_drops_all _ otherTasks) by done.
    rewrite !filter_keeps_all; [done|by apply Forall_drop|by apply Forall_take].
  - rewrite filter_cons_False by congruence.
    rewrite <- filter_app, take_drop.
    rewrite (filter_drops_all _ statusTasks); [by rewrite app_nil_r|].
    eapply Forall_impl; [exact Hstatus|]. intros t Ht Hs'. congruence.
Qed.
End drop_facts.

(** X16: a drop on a column, for a task id of the store and a readable
    insertion index, gives the task the status of the column and puts it
    at the clamped index among the other tasks of that status, whose order
    is kept; in the view of every other status the task is gone and the
    remaining tasks keep their order; the fields of the engine are
    cleared. *)
Theorem handleDrop_views now e dd tasks card column idx i task :
  draggedElement dd = Some card →
  closestColumn e = Some column →
  getInsertionIndex dd column = Normal idx →
  findTask (dataTransferText e) tasks = Some (i, task) →
  let s := dataset_status column in
  let statusTasks := getTasksByStatus s (delete i tasks) in
  let k := clampIndex idx (length statusTasks) in
  let task' := mkTask (id task) (title task) (description task) s
                 (createdAt task) now in
  ∃ tasks',
    handleDrop now e dd tasks = (Normal tt, mkDragDrop None None, tasks') ∧
    getTasksByStatus s tasks' = take k statusTasks ++ task' :: drop k statusTasks ∧
    ∀ s', s' ≠ s →
      getTasksByStatus s' tasks' = getTasksByStatus s' (delete i tasks).
Proof.
  intros Hdrag Hcol Hidx Hfind. cbn zeta. eexists. split.
  { unfold handleDrop. rewrite Hdrag, Hcol, Hidx. reflexivity. }
  rewrite (update_then_move _ _ _ _ _ _ _ Hfind). cbn zeta.
  split.
  - rewrite (getTasksByStatus_rebuilt (dataset_status column)), decide_True;
      try done.
    + apply (Forall_filter_self (λ t, status t ≠ dataset_status column)).
    + apply Forall_filter_self.
  - intros s' Hs'.
    rewrite (getTasksByStatus_rebuilt (dataset_status column)), decide_False;
      try done.
    + unfold getTasksByStatus. apply filter_filter_sub. congruence.
    + apply (Forall_filter_self (λ t, status t ≠ dataset_status column)).
    + apply Forall_filter_self.
Qed.

Lemma handleDrop_views_witness :
  let now := "2024-01-03T00:00:00.000Z" in
  let dd := mkDragDrop (Some "A") (Some true) in
  let column := mkColumn (Some "done")
                  (Some [sampleCard "B" 100; PlaceholderNode;
                         sampleCard "C" 200]) in
  let e := mkDropEvent (Some column) "A" in
  let tasks := [sampleTask "A" "todo"; sampleTask "B" "done";
                sampleTask "C" "done"] in
  draggedElement dd = Some "A" ∧ closestColumn e = Some column ∧
  getInsertionIndex dd column = Normal 1 ∧
  findTask (dataTransferText e) tasks = Some (0%nat, sampleTask "A" "todo") ∧
  ∃ tasks',
    handleDrop now e dd tasks = (Normal tt, mkDragDrop None None, tasks') ∧
    id <$> getTasksByStatus (Some "done") tasks' = ["B"; "A"; "C"].
Proof.
  intros now dd column e tasks.
  split; [reflexivity|]. split; [reflexivity|]. split; [reflexivity|].
  split; [reflexivity|].
  destruct (handleDrop_views now e dd tasks "A" column 1 0 (sampleTask "A" "todo")
              eq_refl eq_refl eq_refl eq_refl) as (tasks' & Hdrop & Hview & _).
  exists tasks'. split; [exact Hdrop|].
  exact (eq_trans (f_equal (fmap id) Hview) eq_refl).
Defined.

Section placeholder_facts.
Implicit Types (children pre post : list Node) (node : Node) (n : nat).

Lemma filter_placeholder_insertAfterCard n children :
  filter (λ node, node ≠ PlaceholderNode) (insertAfterCard n children)
  = filter (λ node, node ≠ PlaceholderNode) children.
Proof.
  revert n. induction children as [|node rest IH]; intros n; [done|].
  cbn [insertAfterCard]. destruct (isTaskCard node) eqn:Hcard.
  - destruct n as [|j].
    + destruct node; [|done..]. rewrite !filter_cons_True by done.
      by rewrite filter_cons_False by (intros Hne; by apply Hne).
    + by rewrite !filter_cons, IH.
  - by rewrite !filter_cons, IH.
Qed.

Lemma filter_placeholder_twice children :
  filter (λ node, node ≠ PlaceholderNode)
    (filter (λ node, node ≠ PlaceholderNode) children)
  = filter (λ node, node ≠ PlaceholderNode) children.
Proof.
  apply filter_keeps_all, (Forall_filter_self (λ node, node ≠ PlaceholderNode)).
Qed.

Lemma taskCardsOf_insertAfterCard n children :
  taskCardsOf (insertAfterCard n children) = taskCardsOf children.
Proof.
  rewrite <- (taskCardsOf_no_placeholder (insertAfterCard n children)).
  by rewrite filter_placeholder_insertAfterCard, taskCardsOf_no_placeholder.
Qed.

(** What [handleInsertionPoint] does when there is a placeholder and the
    column has a content element. *)
Lemma handleInsertionPoint_found dd mouseY column children attached :
  placeholder dd = Some attached →
  columnContent column = Some children →
  handleInsertionPoint dd mouseY column
  = (mkDragDrop (draggedElement dd) (Some true),
     mkColumn (dataset_status column)
       (Some match leadingAbove mouseY (taskCardsOf children) with
             | O => PlaceholderNode
                    :: filter (λ node, node ≠ PlaceholderNode) children
             | S n => insertAfterCard n
                        (filter (λ node, node ≠ PlaceholderNode) children)
             end)).
Proof.
  intros Hph Hcontent. unfold handleInsertionPoint, updatePlaceholderPosition.
  rewrite Hcontent, Hph, insertAfterLoop_leading.
  by destruct (leadingAbove mouseY (taskCardsOf children)).
Qed.

Lemma indexOfPlaceholder_middle pre post :
  PlaceholderNode ∉ pre →
  indexOfPlaceholder (pre ++ PlaceholderNode :: post) = Z.of_nat (length pre).
Proof.
  induction pre as [|node pre IH]; intros Hout; [done|].
  apply not_elem_of_cons in Hout as [Hnode Hout].
  cbn [app length]. specialize (IH Hout).
  destruct node; [|done|]; cbn [indexOfPlaceholder]; rewrite IH;
    (rewrite decide_False by lia); lia.
Qed.

Lemma taskCards_no_placeholder children :
  Forall (λ node, isTaskCard node = true) children → PlaceholderNode ∉ children.
Proof.
  intros Hall Hin. by apply (proj1 (Forall_forall _ _) Hall) in Hin.
Qed.

Lemma taskCardsOf_length children :
  Forall (λ node, isTaskCard node = true) children →
  length (taskCardsOf children) = length children.
Proof.
  induction 1 as [|node rest Hnode _ IH]; [done|].
  destruct node as [[taskId [|] r]| |]; try done.
  change (taskCardsOf (CardNode (mkCard taskId false r) :: rest))
    with (mkCard taskId false r :: taskCardsOf rest).
  cbn [length]. by rewrite IH.
Qed.

Lemma taskCardsOf_app pre post :
  taskCardsOf (pre ++ post) = taskCardsOf pre ++ taskCardsOf post.
Proof. apply omap_app. Qed.

(** In a run of cards none of which is dragged the placeholder goes
    right after the card of index [n]. *)
Lemma insertAfterCard_cards n children :
  Forall (λ node, isTaskCard node = true) children →
  (n < length children)%nat →
  insertAfterCard n children
  = take (S n) children ++ PlaceholderNode :: drop (S n) children.
Proof.
  intros Hall. revert n.
  induction Hall as [|node rest Hnode _ IH]; intros n Hn; [cbn in Hn; lia|].
  cbn [insertAfterCard]. rewrite Hnode. destruct n as [|j].
  - done.
  - cbn [length] in Hn. rewrite IH by lia. done.
Qed.

(** The same behind a prefix of such cards and one node that is not
    such a card. *)
Lemma insertAfterCard_behind n pre node post :
  Forall (λ node, isTaskCard node = true) pre →
  isTaskCard node = false →
  (length pre ≤ n)%nat →
  insertAfterCard n (pre ++ node :: post)
  = pre ++ node :: insertAfterCard (n - length pre) post.
Proof.
  intros Hall Hnode. revert n.
  induction Hall as [|first pre Hfirst _ IH]; intros n Hn.
  - cbn [app length insertAfterCard]. by rewrite Hnode, Nat.sub_0_r.
  - cbn [app length insertAfterCard] in *. rewrite Hfirst.
    destruct n as [|j]; [lia|]. rewrite IH by lia. done.
Qed.

Lemma insertAfterCard_before n pre post :
  Forall (λ node, isTaskCard node = true) pre →
  (n < length pre)%nat →
  insertAfterCard n (pre ++ post)
  = take (S n) pre ++ PlaceholderNode :: drop (S n) pre ++ post.
Proof.
  intros Hall. revert n.
  induction Hall as [|first pre Hfirst _ IH]; intros n Hn; [cbn in Hn; lia|].
  cbn [app length insertAfterCard] in *. rewrite Hfirst.
  destruct n as [|j].
  - done.
  - rewrite IH by lia. done.
Qed.
End placeholder_facts.

Section reflow_facts.
Implicit Types (children : list Node) (cards : list Card).
Variable middleOf : Card → Q.

Lemma reflow_cons node children :
  reflow middleOf (node :: children)
  = match node with
    | CardNode card => CardNode (reflowCard middleOf card)
    | other => other
    end :: reflow middleOf children.
Proof. reflexivity. Qed.

Lemma filter_placeholder_reflow children :
  filter (λ node, node ≠ PlaceholderNode) (reflow middleOf children)
  = reflow middleOf (filter (λ node, node ≠ PlaceholderNode) children).
Proof.
  induction children as [|node rest IH]; [done|].
  rewrite reflow_cons. destruct node as [card| |].
  - rewrite !filter_cons_True by done. by rewrite reflow_cons, IH.
  - by rewrite !filter_cons_False by (intros Hne; by apply Hne).
  - rewrite !filter_cons_True by done. by rewrite reflow_cons, IH.
Qed.

Lemma taskCardsOf_reflow children :
  taskCardsOf (reflow middleOf children)
  = reflowCard middleOf <$> taskCardsOf children.
Proof.
  induction children as [|node rest IH]; [done|].
  rewrite reflow_cons. destruct node as [[taskId [|] middle]| |].
  - change (taskCardsOf (CardNode (mkCard taskId true middle) :: rest))
      with (taskCardsOf rest).
    exact IH.
  - change (taskCardsOf (CardNode (mkCard taskId false middle) :: rest))
      with (mkCard taskId false middle :: taskCardsOf rest).
    rewrite fmap_cons, <- IH. reflexivity.
  - exact IH.
  - exact IH.
Qed.

Lemma insertAfterCard_reflow n children :
  insertAfterCard n (reflow middleOf children)
  = reflow middleOf (insertAfterCard n children).
Proof.
  revert n. induction children as [|node rest IH]; intros n; [done|].
  rewrite reflow_cons. destruct node as [[taskId [|] middle]| |].
  - change (insertAfterCard n (CardNode (mkCard taskId true middle) :: rest))
      with (CardNode (mkCard taskId true middle) :: insertAfterCard n rest).
    rewrite reflow_cons, <- IH. reflexivity.
  - destruct n as [|j].
    + reflexivity.
    + change (insertAfterCard (S j)
                (CardNode (mkCard taskId false middle) :: rest))
        with (CardNode (mkCard taskId false middle) :: insertAfterCard j rest).
      rewrite reflow_cons, <- IH. reflexivity.
  - change (insertAfterCard n (PlaceholderNode :: rest))
      with (PlaceholderNode :: insertAfterCard n rest).
    rewrite reflow_cons, <- IH. reflexivity.
  - change (insertAfterCard n (EmptyStateNode :: rest))
      with (EmptyStateNode :: insertAfterCard n rest).
    rewrite reflow_cons, <- IH. reflexivity.
Qed.

Lemma leadingAbove_reflow mouseY cards :
  Forall (λ card, (middleOf card < mouseY)%Q ↔ (cardMiddle card < mouseY)%Q)
    cards →
  leadingAbove mouseY (reflowCard middleOf <$> cards) = leadingAbove mouseY cards.
Proof.
  induction 1 as [|card rest Hside _ IH]; [done|].
  rewrite fmap_cons. cbn [leadingAbove reflowCard cardMiddle].
  destruct (decide (middleOf card < mouseY)%Q) as [Hnew|Hnew];
    destruct (decide (cardMiddle card < mouseY)%Q) as [Hold|Hold];
    try tauto. by rewrite IH.
Qed.
End reflow_facts.

(** X17: [handleInsertionPoint] only moves the placeholder: the status tag
    of the column, the dragged element and the other children of the
    column, in their order, are kept.  A second call with the same pointer
    position, for which the rectangles of the cards are read again, changes
    nothing more provided every card not being dragged still has its
    middle on the same side of the pointer as at the first call, as is the
    case when the rectangles have not changed. *)
Theorem handleInsertionPoint_idempotent dd mouseY column :
  let dd1 := (handleInsertionPoint dd mouseY column).1 in
  let column1 := (handleInsertionPoint dd mouseY column).2 in
  dataset_status column1 = dataset_status column ∧
  draggedElement dd1 = draggedElement dd ∧
  (columnContent column = None → column1 = column ∧ dd1 = dd) ∧
  (∀ children, columnContent column = Some children →
     ∃ children1, columnContent column1 = Some children1 ∧
       filter (λ node, node ≠ PlaceholderNode) children1
       = filter (λ node, node ≠ PlaceholderNode) children ∧
       (∀ middleOf,
          Forall (λ card, (middleOf card < mouseY)%Q
                          ↔ (cardMiddle card < mouseY)%Q)
            (taskCardsOf children) →
          handleInsertionPoint dd1 mouseY
            (mkColumn (dataset_status column) (Some (reflow middleOf children1)))
          = (dd1, mkColumn (dataset_status column)
                    (Some (reflow middleOf children1)))) ∧
       handleInsertionPoint dd1 mouseY column1 = (dd1, column1)).
Proof.
  cbn zeta. destruct column as [tag [children|]].
  2: { cbn. split_and!; try done. }
  cbn [dataset_status columnContent].
  destruct (placeholder dd) as [attached|] eqn:Hph.
  2: { assert (Hsame : ∀ children0,
                handleInsertionPoint dd mouseY (mkColumn tag (Some children0))
                = (dd, mkColumn tag (Some children0))).
       { intros children0. unfold handleInsertionPoint, updatePlaceholderPosition.
         cbn [columnContent dataset_status]. by rewrite Hph. }
       rewrite Hsame. cbn [fst snd dataset_status columnContent].
       split_and!; [done..|]. intros ? [= <-]. exists children.
       split_and!; [done..| |apply Hsame]. intros middleOf _. apply Hsame. }
  rewrite (handleInsertionPoint_found dd mouseY (mkColumn tag (Some children))
             children attached Hph eq_refl).
  cbn [dataset_status columnContent fst snd].
  set (children1 := filter (λ node, node ≠ PlaceholderNode) children).
  set (children' := match leadingAbove mouseY (taskCardsOf children) with
                    | O => PlaceholderNode :: children1
                    | S n => insertAfterCard n children1
                    end).
  assert (Hrest : filter (λ node, node ≠ PlaceholderNode) children' = children1).
  { unfold children'. destruct (leadingAbove mouseY (taskCardsOf children)).
    - rewrite filter_cons_False by (intros Hne; by apply Hne).
      apply filter_placeholder_twice.
    - rewrite filter_placeholder_insertAfterCard.
      apply filter_placeholder_twice. }
  assert (Hcards : taskCardsOf children' = taskCardsOf children).
  { rewrite <- (taskCardsOf_no_placeholder children'), Hrest.
    apply taskCardsOf_no_placeholder. }
  split_and!; try done. intros ? [= <-]. exists children'.
  assert (Hagain : ∀ middleOf,
            Forall (λ card, (middleOf card < mouseY)%Q
                            ↔ (cardMiddle card < mouseY)%Q)
              (taskCardsOf children) →
            handleInsertionPoint (mkDragDrop (draggedElement dd) (Some true))
              mouseY (mkColumn tag (Some (reflow middleOf children')))
            = (mkDragDrop (draggedElement dd) (Some true),
               mkColumn tag (Some (reflow middleOf children')))).
  { intros middleOf Hside.
    rewrite (handleInsertionPoint_found
               (mkDragDrop (draggedElement dd) (Some true)) mouseY
               (mkColumn tag (Some (reflow middleOf children')))
               (reflow middleOf children') true eq_refl eq_refl).
    cbn [draggedElement dataset_status].
    rewrite taskCardsOf_reflow, Hcards, (leadingAbove_reflow _ _ _ Hside).
    rewrite filter_placeholder_reflow, Hrest.
    do 3 f_equal. unfold children'.
    destruct (leadingAbove mouseY (taskCardsOf children)); [done|].
    apply insertAfterCard_reflow. }
  split_and!; [done..|exact Hagain|].
  assert (Hid : reflow cardMiddle children' = children').
  { clear. induction children' as [|node rest IH]; [done|].
    rewrite reflow_cons, IH. by destruct node as [[? ? ?]| |]. }
  assert (Hsame : Forall (λ card, (cardMiddle card < mouseY)%Q
                                  ↔ (cardMiddle card < mouseY)%Q)
                    (taskCardsOf children)).
  { apply Forall_forall. by intros card _. }
  pose proof (Hagain cardMiddle Hsame) as Hfixed.
  rewrite Hid in Hfixed. exact Hfixed.
Qed.

Lemma handleInsertionPoint_idempotent_witness :
  let dd := mkDragDrop (Some "A") (Some false) in
  let children := [sampleCard "x" 100; sampleCard "y" 200; sampleCard "z" 300] in
  let lowered := λ card : Card,
    if decide (cardMiddle card < 150)%Q then cardMiddle card
    else (cardMiddle card + 96)%Q in
  columnContent sampleColumn = Some children ∧
  Forall (λ card, (lowered card < 150)%Q ↔ (cardMiddle card < 150)%Q)
    (taskCardsOf children) ∧
  ∃ children1,
    columnContent (handleInsertionPoint dd 150 sampleColumn).2 = Some children1 ∧
    handleInsertionPoint (handleInsertionPoint dd 150 sampleColumn).1 150
      (mkColumn (dataset_status sampleColumn) (Some (reflow lowered children1)))
    = ((handleInsertionPoint dd 150 sampleColumn).1,
       mkColumn (dataset_status sampleColumn) (Some (reflow lowered children1))).
Proof.
  intros dd children lowered.
  assert (Hside : Forall (λ card, (lowered card < 150)%Q
                                  ↔ (cardMiddle card < 150)%Q)
                    (taskCardsOf children)).
  { repeat constructor; vm_compute; intros H; discriminate H || reflexivity. }
  split; [reflexivity|]. split; [exact Hside|].
  destruct (proj2 (proj2 (proj2
              (handleInsertionPoint_idempotent dd 150 sampleColumn)))
              children eq_refl) as (children1 & Hcontent & _ & Hagain & _).
  exists children1. split; [exact Hcontent|]. exact (Hagain lowered Hside).
Defined.

(** [handleDragOver] on a column with a content element, right after
    [handleDragStart], and the [handleDrop] that follows on that column. *)
Lemma dragOver_then_drop now tid dd0 mouseY tag children tasks :
  let children' :=
    match leadingAbove mouseY (taskCardsOf children) with
    | O => PlaceholderNode :: filter (λ node, node ≠ PlaceholderNode) children
    | S n => insertAfterCard n
               (filter (λ node, node ≠ PlaceholderNode) children)
    end in
  handleDragOver (mkDragOverEvent (Some (mkColumn tag (Some children))) mouseY)
    (handleDragStart tid dd0)
  = (mkDragDrop (Some tid) (Some true), Some (mkColumn tag (Some children'))) ∧
  handleDrop now (mkDropEvent (Some (mkColumn tag (Some children'))) tid)
    (mkDragDrop (Some tid) (Some true)) tasks
  = (Normal tt, mkDragDrop None None,
     moveTaskToPosition tid tag (indexOfPlaceholder children')
       (updateTaskStatus now tid tag tasks)).
Proof.
  cbn zeta. split; [|done].
  unfold handleDragOver, handleDragStart, createPlaceholder.
  cbn [draggedElement overColumn clientY].
  by rewrite (handleInsertionPoint_found (mkDragDrop (Some tid) (Some false))
                mouseY (mkColumn tag (Some children)) children false
                eq_refl eq_refl).
Qed.

(** X18: a card dragged from another column.  When the children of the
    target column, the placeholder apart, are cards none of which is being
    dragged, as many as the store has other tasks of the status of the
    column, then drag start, one drag-over at height [mouseY] and the drop
    put the task in the view of that status right after the cards that
    stand, at the head of the column, with their middle above the pointer:
    the task lands where the placeholder was shown. *)
Theorem drop_from_other_column now tid dd0 mouseY tag children tasks i task :
  Forall (λ node, isTaskCard node = true)
    (filter (λ node, node ≠ PlaceholderNode) children) →
  findTask tid tasks = Some (i, task) →
  length (filter (λ node, node ≠ PlaceholderNode) children)
  = length (getTasksByStatus tag (delete i tasks)) →
  let run := leadingAbove mouseY (taskCardsOf children) in
  let statusTasks := getTasksByStatus tag (delete i tasks) in
  let task' := mkTask (id task) (title task) (description task) tag
                 (createdAt task) now in
  ∃ dd1 column1 tasks',
    handleDragOver (mkDragOverEvent (Some (mkColumn tag (Some children))) mouseY)
      (handleDragStart tid dd0) = (dd1, Some column1) ∧
    handleDrop now (mkDropEvent (Some column1) tid) dd1 tasks
    = (Normal tt, mkDragDrop None None, tasks') ∧
    getTasksByStatus tag tasks'
    = take run statusTasks ++ task' :: drop run statusTasks.
Proof.
  intros Hcards Hfind Hlink. cbn zeta.
  destruct (dragOver_then_drop now tid dd0 mouseY tag children tasks)
    as [Hover Hdrop].
  eexists _, _, _. split; [exact Hover|]. split; [exact Hdrop|].
  rewrite (update_then_move _ _ _ _ _ _ _ Hfind). cbn zeta.
  rewrite (getTasksByStatus_rebuilt tag), decide_True; try done.
  2: { apply (Forall_filter_self (λ t, status t ≠ tag)). }
  2: { apply Forall_filter_self. }
  pose proof (leadingAbove_le mouseY (taskCardsOf children)) as Hrun.
  rewrite <- (taskCardsOf_no_placeholder children) in Hrun at 2.
  rewrite (taskCardsOf_length _ Hcards) in Hrun.
  set (children1 := filter (λ node, node ≠ PlaceholderNode) children) in *.
  assert (Hidx : indexOfPlaceholder
            match leadingAbove mouseY (taskCardsOf children) with
            | O => PlaceholderNode :: children1
            | S n => insertAfterCard n children1
            end = Z.of_nat (leadingAbove mouseY (taskCardsOf children))).
  { destruct (leadingAbove mouseY (taskCardsOf children)) as [|n]; [done|].
    rewrite (insertAfterCard_cards n children1 Hcards) by lia.
    rewrite indexOfPlaceholder_middle.
    - rewrite length_take_le by lia. done.
    - intros Hin. apply (taskCards_no_placeholder children1 Hcards).
      by apply (subseteq_take (S n) children1). }
  rewrite Hidx. unfold clampIndex. rewrite decide_True by lia.
  by rewrite Nat2Z.id.
Qed.

Lemma drop_from_other_column_witness :
  let now := "2024-01-03T00:00:00.000Z" in
  let children := [sampleCard "B" 100; sampleCard "C" 200] in
  let tasks := [sampleTask "A" "todo"; sampleTask "B" "done";
                sampleTask "C" "done"] in
  Forall (λ node, isTaskCard node = true)
    (filter (λ node, node ≠ PlaceholderNode) children) ∧
  findTask "A" tasks = Some (0%nat, sampleTask "A" "todo") ∧
  length (filter (λ node, node ≠ PlaceholderNode) children)
  = length (getTasksByStatus (Some "done") (delete 0%nat tasks)) ∧
  ∃ dd1 column1 tasks',
    handleDragOver
      (mkDragOverEvent (Some (mkColumn (Some "done") (Some children))) 150)
      (handleDragStart "A" (mkDragDrop None None)) = (dd1, Some column1) ∧
    handleDrop now (mkDropEvent (Some column1) "A") dd1 tasks
    = (Normal tt, mkDragDrop None None, tasks') ∧
    id <$> getTasksByStatus (Some "done") tasks' = ["B"; "A"; "C"].
Proof.
  intros now children tasks.
  assert (Hcards : Forall (λ node, isTaskCard node = true)
                     (filter (λ node, node ≠ PlaceholderNode) children)).
  { apply (bool_decide_unpack _). vm_compute. exact I. }
  split; [exact Hcards|]. split; [reflexivity|]. split; [reflexivity|].
  destruct (drop_from_other_column now "A" (mkDragDrop None None) 150
              (Some "done") children tasks 0 (sampleTask "A" "todo")
              Hcards eq_refl eq_refl)
    as (dd1 & column1 & tasks' & Hover & Hdrop & Hview).
  exists dd1, column1, tasks'. split; [exact Hover|]. split; [exact Hdrop|].
  exact (eq_trans (f_equal (fmap id) Hview) eq_refl).
Defined.

(** X19: a card dragged inside its own column.  When the children of the
    column, the placeholder apart, are cards not being dragged, then the
    dragged card, then again cards not being dragged, and the store has
    as many other tasks of that status, then after drag start, one
    drag-over and the drop the task stands in the view of its status
    after the cards above the pointer when the placeholder was shown at
    or above the old place of the card, but one place further down when
    it was shown below the old place, unless that is past the end. *)
Theorem drop_in_same_column now tid dd0 mouseY tag children pre dragged post
    tasks i task :
  filter (λ node, node ≠ PlaceholderNode) children
  = pre ++ CardNode dragged :: post →
  dragging dragged = true →
  Forall (λ node, isTaskCard node = true) pre →
  Forall (λ node, isTaskCard node = true) post →
  findTask tid tasks = Some (i, task) →
  (length pre + length post)%nat
  = length (getTasksByStatus tag (delete i tasks)) →
  let run := leadingAbove mouseY (taskCardsOf children) in
  let k := if decide (run ≤ length pre)%nat then run
           else Nat.min (S run) (length pre + length post) in
  let statusTasks := getTasksByStatus tag (delete i tasks) in
  let task' := mkTask (id task) (title task) (description task) tag
                 (createdAt task) now in
  ∃ dd1 column1 tasks',
    handleDragOver (mkDragOverEvent (Some (mkColumn tag (Some children))) mouseY)
      (handleDragStart tid dd0) = (dd1, Some column1) ∧
    handleDrop now (mkDropEvent (Some column1) tid) dd1 tasks
    = (Normal tt, mkDragDrop None None, tasks') ∧
    getTasksByStatus tag tasks'
    = take k statusTasks ++ task' :: drop k statusTasks.
Proof.
  intros Hshape Hdragged Hpre Hpost Hfind Hlink. cbn zeta.
  destruct dragged as [cardId flag r]. cbn [dragging] in Hdragged. subst flag.
  set (dragged := mkCard cardId true r) in *.
  destruct (dragOver_then_drop now tid dd0 mouseY tag children tasks)
    as [Hover Hdrop].
  eexists _, _, _. split; [exact Hover|]. split; [exact Hdrop|].
  rewrite (update_then_move _ _ _ _ _ _ _ Hfind). cbn zeta.
  rewrite (getTasksByStatus_rebuilt tag), decide_True; try done.
  2: { apply (Forall_filter_self (λ t, status t ≠ tag)). }
  2: { apply Forall_filter_self. }
  assert (Hnode : isTaskCard (CardNode dragged) = false) by done.
  pose proof (leadingAbove_le mouseY (taskCardsOf children)) as Hrun.
  rewrite <- (taskCardsOf_no_placeholder children) in Hrun at 2.
  rewrite Hshape, taskCardsOf_app in Hrun.
  change (taskCardsOf (CardNode dragged :: post)) with (taskCardsOf post)
    in Hrun.
  rewrite length_app, !taskCardsOf_length in Hrun by done.
  rewrite Hshape.
  assert (Hidx : indexOfPlaceholder
            match leadingAbove mouseY (taskCardsOf children) with
            | O => PlaceholderNode :: pre ++ CardNode dragged :: post
            | S n => insertAfterCard n (pre ++ CardNode dragged :: post)
            end
          = if decide (leadingAbove mouseY (taskCardsOf children) ≤ length pre)%nat
            then Z.of_nat (leadingAbove mouseY (taskCardsOf children))
            else Z.of_nat (S (leadingAbove mouseY (taskCardsOf children)))).
  { destruct (leadingAbove mouseY (taskCardsOf children)) as [|n].
    - by rewrite decide_True by lia.
    - case_decide as Hle.
      + rewrite (insertAfterCard_before n pre _ Hpre) by lia.
        rewrite indexOfPlaceholder_middle.
        * rewrite length_take_le by lia. done.
        * intros Hin. apply (taskCards_no_placeholder pre Hpre).
          by apply (subseteq_take (S n) pre).
      + rewrite (insertAfterCard_behind n pre _ post Hpre Hnode) by lia.
        rewrite (insertAfterCard_cards _ post Hpost) by lia.
        rewrite (app_assoc pre [CardNode dragged]
                   (take (S (n - length pre)) post
                    ++ PlaceholderNode :: drop (S (n - length pre)) post)
                 : pre ++ CardNode dragged :: _ = _).
        rewrite app_assoc, indexOfPlaceholder_middle.
        * rewrite !length_app, length_take_le by lia. cbn [length]. lia.
        * intros [[Hin|Hin]%elem_of_app|Hin]%elem_of_app.
          -- by apply (taskCards_no_placeholder pre Hpre).
          -- by apply list_elem_of_singleton in Hin.
          -- apply (taskCards_no_placeholder post Hpost).
             by apply (subseteq_take (S (n - length pre)) post). }
  rewrite Hidx. unfold clampIndex.
  destruct (decide (leadingAbove mouseY (taskCardsOf children) ≤ length pre)%nat).
  - rewrite decide_True by lia. by rewrite Nat2Z.id.
  - case_decide.
    + rewrite Nat2Z.id, Nat.min_l by lia. done.
    + rewrite Nat.min_r by lia. by rewrite Hlink.
Qed.

Lemma drop_in_same_column_witness :
  let now := "2024-01-03T00:00:00.000Z" in
  let dragged := mkCard "A" true 100 in
  let post := [sampleCard "B" 200; sampleCard "C" 300] in
  let children := CardNode dragged :: post in
  let tasks := [sampleTask "A" "todo"; sampleTask "B" "todo";
                sampleTask "C" "todo"] in
  filter (λ node, node ≠ PlaceholderNode) children
  = [] ++ CardNode dragged :: post ∧
  dragging dragged = true ∧
  Forall (λ node, isTaskCard node = true) ([] : list Node) ∧
  Forall (λ node, isTaskCard node = true) post ∧
  findTask "A" tasks = Some (0%nat, sampleTask "A" "todo") ∧
  (length ([] : list Node) + length post)%nat
  = length (getTasksByStatus (Some "todo") (delete 0%nat tasks)) ∧
  leadingAbove 250 (taskCardsOf children) = 1%nat ∧
  ∃ dd1 column1 tasks',
    handleDragOver
      (mkDragOverEvent (Some (mkColumn (Some "todo") (Some children))) 250)
      (handleDragStart "A" (mkDragDrop None None)) = (dd1, Some column1) ∧
    handleDrop now (mkDropEvent (Some column1) "A") dd1 tasks
    = (Normal tt, mkDragDrop None None, tasks') ∧
    id <$> getTasksByStatus (Some "todo") tasks' = ["B"; "C"; "A"].
Proof.
  intros now dragged post children tasks.
  assert (Hpost : Forall (λ node, isTaskCard node = true) post).
  { apply (bool_decide_unpack _). vm_compute. exact I. }
  split; [reflexivity|]. split; [reflexivity|]. split; [constructor|].
  split; [exact Hpost|]. split; [reflexivity|]. split; [reflexivity|].
  split; [vm_compute; reflexivity|].
  destruct (drop_in_same_column now "A" (mkDragDrop None None) 250
              (Some "todo") children [] dragged post tasks 0
              (sampleTask "A" "todo") eq_refl eq_refl (Forall_nil_2 _) Hpost
              eq_refl eq_refl)
    as (dd1 & column1 & tasks' & Hover & Hdrop & Hview).
  exists dd1, column1, tasks'. split; [exact Hover|]. split; [exact Hdrop|].
  exact (eq_trans (f_equal (fmap id) Hview) eq_refl).
Defined.

(** X20: after a drop on a column that returned normally while a drag was
    running, the fields of the engine are cleared, so that another drop
    event or drag-over event changes neither the task list nor the
    engine: a gesture is committed at most once. *)
Theorem handleDrop_once now e dd tasks card column dd' tasks' :
  draggedElement dd = Some card →
  closestColumn e = Some column →
  handleDrop now e dd tasks = (Normal tt, dd', tasks') →
  dd' = mkDragDrop None None ∧
  (∀ now2 e2, handleDrop now2 e2 dd' tasks' = (Normal tt, dd', tasks')) ∧
  (∀ e3, handleDragOver e3 dd' = (dd', overColumn e3)) ∧
  handleDragEnd dd' = dd'.
Proof.
  intros Hdrag Hcol. unfold handleDrop. rewrite Hdrag, Hcol.
  destruct (getInsertionIndex dd column); [|done].
  intros [= <- <-]. done.
Qed.

Lemma handleDrop_once_witness :
  let now := "2024-01-03T00:00:00.000Z" in
  let dd := mkDragDrop (Some "A") (Some true) in
  let column := mkColumn (Some "done") (Some [PlaceholderNode]) in
  let e := mkDropEvent (Some column) "A" in
  let tasks := [sampleTask "A" "todo"] in
  let tasks' := [mkTask "A" "A" "" (Some "done") "2024-01-01T00:00:00.000Z" now] in
  draggedElement dd = Some "A" ∧ closestColumn e = Some column ∧
  handleDrop now e dd tasks = (Normal tt, mkDragDrop None None, tasks') ∧
  handleDrop now e (mkDragDrop None None) tasks'
  = (Normal tt, mkDragDrop None None, tasks').
Proof.
  intros now dd column e tasks tasks'.
  split; [reflexivity|]. split; [reflexivity|]. split; [reflexivity|].
  exact (proj1 (proj2 (handleDrop_once now e dd tasks "A" column
                         (mkDragDrop None None) tasks' eq_refl eq_refl eq_refl))
           now e).
Defined.

(** X21: a drop never loses, duplicates or renames a task: whatever the
    event and the state of the engine, and also when reading the insertion
    index throws, the tasks after [handleDrop] are the tasks before it up to
    order as far as id, title, description and creation stamp go, these
    four taken together task by task; so pairwise distinct ids stay
    pairwise distinct; and when no task carries the dropped id the list is
    left exactly as it was. *)
Theorem handleDrop_keeps_tasks now e dd tasks :
  (λ t, (id t, title t, description t, createdAt t))
    <$> (handleDrop now e dd tasks).2
  ≡ₚ (λ t, (id t, title t, description t, createdAt t)) <$> tasks ∧
  (NoDup (id <$> tasks) → NoDup (id <$> (handleDrop now e dd tasks).2)) ∧
  (dataTransferText e ∉ (id <$> tasks) → (handleDrop now e dd tasks).2 = tasks).
Proof.
  assert (Hfield : ∀ {B} (f : Task → B),
            (∀ s task, f (mkTask (id task) (title task) (description task) s
                            (createdAt task) now) = f task) →
            f <$> (handleDrop now e dd tasks).2 ≡ₚ f <$> tasks).
  { intros B f Hf. unfold handleDrop.
    destruct (draggedElement dd); [|done].
    destruct (closestColumn e) as [column|]; [|done].
    destruct (getInsertionIndex dd column); cbn [snd].
    - rewrite moveTaskToPosition_Permutation.
      by rewrite (updateTaskStatus_field f).
    - by rewrite (updateTaskStatus_field f). }
  split_and!.
  - by apply (Hfield _ (λ t, (id t, title t, description t, createdAt t))).
  - intros Hnd. by rewrite (Hfield _ id).
  - intros Hout%findTask_None. unfold handleDrop.
    destruct (draggedElement dd); [|done].
    destruct (closestColumn e) as [column|]; [|done].
    rewrite (updateTaskStatus_missing _ _ _ _ Hout).
    destruct (getInsertionIndex dd column); cbn [snd]; [|done].
    by apply moveTaskToPosition_missing.
Qed.

Lemma handleDrop_keeps_tasks_witness :
  let now := "2024-01-03T00:00:00.000Z" in
  let dd := mkDragDrop (Some "Z") (Some true) in
  let column := mkColumn (Some "done") (Some [PlaceholderNode]) in
  let e := mkDropEvent (Some column) "Z" in
  let tasks := [sampleTask "A" "todo"; sampleTask "B" "done"] in
  NoDup (id <$> tasks) ∧
  (dataTransferText e ∉ (id <$> tasks)) ∧
  NoDup (id <$> (handleDrop now e dd tasks).2) ∧
  (handleDrop now e dd tasks).2 = tasks.
Proof.
  intros now dd column e tasks.
  assert (Hnd : NoDup (id <$> tasks)).
  { apply (bool_decide_unpack _). vm_compute. exact I. }
  assert (Hout : dataTransferText e ∉ (id <$> tasks)).
  { apply (bool_decide_unpack _). vm_compute. exact I. }
  pose proof (handleDrop_keeps_tasks now e dd tasks) as (_ & Hkeep & Hstale).
  split; [exact Hnd|]. split; [exact Hout|].
  split; [exact (Hkeep Hnd)|exact (Hstale Hout)].
Defined.

(** X22: when the placeholder was never placed, as right after drag start
    or after a drag-over of a column without content element, the
    insertion index read at the drop is -1, and the dropped task becomes
    the last one in the view of the status of the column. *)
Theorem drop_without_placeholder now tid dd0 mouseY e column tasks i task :
  closestColumn e = Some column →
  dataTransferText e = tid →
  findTask tid tasks = Some (i, task) →
  let s := dataset_status column in
  let task' := mkTask (id task) (title task) (description task) s
                 (createdAt task) now in
  handleDragOver (mkDragOverEvent (Some (mkColumn s None)) mouseY)
    (handleDragStart tid dd0)
  = (handleDragStart tid dd0, Some (mkColumn s None)) ∧
  getInsertionIndex (handleDragStart tid dd0) column = Normal (-1) ∧
  ∃ tasks',
    handleDrop now e (handleDragStart tid dd0) tasks
    = (Normal tt, mkDragDrop None None, tasks') ∧
    getTasksByStatus s tasks' = getTasksByStatus s (delete i tasks) ++ [task'].
Proof.
  intros Hcol Htid Hfind. cbn zeta. split_and!; [done..|].
  eexists. split.
  { unfold handleDrop. cbn [handleDragStart createPlaceholder draggedElement].
    rewrite Hcol. cbn [getInsertionIndex placeholder]. rewrite Htid.
    reflexivity. }
  rewrite (update_then_move _ _ _ _ _ _ _ Hfind). cbn zeta.
  rewrite (getTasksByStatus_rebuilt (dataset_status column)), decide_True;
    try done.
  - rewrite clampIndex_outside by lia. by rewrite take_ge, drop_all.
  - apply (Forall_filter_self (λ t, status t ≠ dataset_status column)).
  - apply Forall_filter_self.
Qed.

Lemma drop_without_placeholder_witness :
  let now := "2024-01-03T00:00:00.000Z" in
  let column := mkColumn (Some "done") None in
  let e := mkDropEvent (Some column) "A" in
  let tasks := [sampleTask "A" "todo"; sampleTask "B" "done";
                sampleTask "C" "done"] in
  closestColumn e = Some column ∧ dataTransferText e = "A" ∧
  findTask "A" tasks = Some (0%nat, sampleTask "A" "todo") ∧
  ∃ tasks',
    handleDrop now e (handleDragStart "A" (mkDragDrop None None)) tasks
    = (Normal tt, mkDragDrop None None, tasks') ∧
    id <$> getTasksByStatus (Some "done") tasks' = ["B"; "C"; "A"].
Proof.
  intros now column e tasks.
  split; [reflexivity|]. split; [reflexivity|]. split; [reflexivity|].
  destruct (drop_without_placeholder now "A" (mkDragDrop None None) 0 e column
              tasks 0 (sampleTask "A" "todo") eq_refl eq_refl eq_refl)
    as (_ & _ & tasks' & Hdrop & Hview).
  exists tasks'. split; [exact Hdrop|].
  exact (eq_trans (f_equal (fmap id) Hview) eq_refl).
Defined.

(** * Persistence *)

(** X23: the probe [isAvailable] answers true exactly when the storage can
    be reached and accepts the probe item; it never changes an item other
    than its probe item [localStorage_test], so that [loadTasks] returns
    the same before and after; and after a successful probe no probe item
    is left, also when one was there before. *)
Theorem isAvailable_keeps_items {JsValue : Type} (emptyArray : JsValue)
    (parse : string → completion JsValue)
    (quota : gmap string string → string → string → bool) (ls : LocalStorage) :
  let available := (isAvailable quota ls).1 in
  let ls' := (isAvailable quota ls).2 in
  (available = true
   ↔ denied ls = false
     ∧ quota (items ls) "localStorage_test" "localStorage_test" = true) ∧
  denied ls' = denied ls ∧
  (∀ key, key ≠ "localStorage_test" → items ls' !! key = items ls !! key) ∧
  loadTasks emptyArray parse ls' = loadTasks emptyArray parse ls ∧
  (available = true → items ls' !! "localStorage_test" = None).
Proof.
  unfold isAvailable. cbn zeta. destruct ls as [[|] stored]; cbn [denied items].
  - cbn [fst snd]. split_and!; try done. split; [done|by intros [? _]].
  - destruct (quota stored "localStorage_test" "localStorage_test") eqn:Hq;
      cbn [fst snd].
    + assert (Hkeys : ∀ key, key ≠ "localStorage_test" →
                delete "localStorage_test"
                  (<["localStorage_test" := "localStorage_test"]> stored) !! key
                = stored !! key).
      { intros key Hkey.
        by rewrite lookup_delete_ne, lookup_insert_ne by done. }
      split_and!; try done.
      * unfold loadTasks. cbn [denied items]. by rewrite Hkeys.
      * intros _. apply lookup_delete_eq.
    + split_and!; try done. split; [done|by intros [_ ?]].
Qed.

Lemma isAvailable_keeps_items_witness :
  let stored : gmap string string :=
    <["kanban_tasks" := "[]"]> (<["localStorage_test" := "old"]> ∅) in
  let ls := mkLocalStorage false stored in
  let quota := λ (_ : gmap string string) (_ _ : string), true in
  "kanban_tasks" ≠ "localStorage_test" ∧
  (isAvailable quota ls).1 = true ∧
  items (isAvailable quota ls).2 !! "kanban_tasks" = items ls !! "kanban_tasks" ∧
  items (isAvailable quota ls).2 !! "localStorage_test" = None.
Proof.
  intros stored ls quota.
  assert (Hkey : "kanban_tasks" ≠ "localStorage_test") by discriminate.
  pose proof (isAvailable_keeps_items "" (λ json, Normal json) quota ls)
    as (_ & _ & Hkeys & _ & Hgone).
  split; [exact Hkey|]. split; [reflexivity|].
  split; [exact (Hkeys "kanban_tasks" Hkey)|exact (Hgone eq_refl)].
Defined.

(** X24: a save that the storage accepts is what the next load hands to
    [JSON.parse]: when parsing the text made for the tasks gives the tasks
    back, [loadTasks] after [saveTasks] returns them; a save that the
    storage refuses, or cannot be reached for, changes nothing, so the
    next load returns what it returned before; and [loadTasks] after
    [clearTasks] always returns the empty array. *)
Theorem saveTasks_loadTasks {JsValue : Type} (emptyArray : JsValue)
    (stringify : JsValue → string) (parse : string → completion JsValue)
    (quota : gmap string string → string → string → bool)
    (tasks : JsValue) (ls : LocalStorage) :
  (denied ls = false →
   quota (items ls) STORAGE_KEY (stringify tasks) = true →
   stringify tasks ≠ "" →
   parse (stringify tasks) = Normal tasks →
   loadTasks emptyArray parse (saveTasks stringify quota tasks ls) = tasks) ∧
  (denied ls = true
   ∨ quota (items ls) STORAGE_KEY (stringify tasks) = false →
   saveTasks stringify quota tasks ls = ls) ∧
  loadTasks emptyArray parse (clearTasks ls) = emptyArray.
Proof.
  unfold saveTasks, loadTasks, clearTasks. cbn zeta.
  destruct ls as [[|] stored]; cbn [denied items]; split_and!; try done.
  - intros _ Hq Hne Hparse. rewrite Hq. cbn [denied items].
    rewrite lookup_insert_eq, decide_False by done. by rewrite Hparse.
  - intros [?|Hq]; [done|]. by rewrite Hq.
  - by rewrite lookup_delete_eq.
Qed.

Lemma saveTasks_loadTasks_witness :
  let ls := mkLocalStorage false ∅ in
  let stringify := λ text : string, String "[" (text +:+ "]") in
  let parse := λ json : string,
    match json with
    | String "[" rest => Normal (substring 0 (String.length rest - 1) rest)
    | _ => Throw "SyntaxError"
    end in
  let quota := λ (_ : gmap string string) (_ value : string),
    bool_decide (String.length value ≤ 5000)%nat in
  denied ls = false ∧
  quota (items ls) STORAGE_KEY (stringify "1,2") = true ∧
  stringify "1,2" ≠ "" ∧
  parse (stringify "1,2") = Normal "1,2" ∧
  loadTasks "" parse (saveTasks stringify quota "1,2" ls) = "1,2".
Proof.
  intros ls stringify parse quota.
  assert (Hne : stringify "1,2" ≠ "") by discriminate.
  split; [reflexivity|]. split; [reflexivity|]. split; [exact Hne|].
  split; [reflexivity|].
  exact (proj1 (saveTasks_loadTasks "" stringify parse quota "1,2" ls)
           eq_refl eq_refl Hne eq_refl).
Defined.
